(** * pyminer: a shallow embedding of the proof-of-work search engine

    The development follows [src/pyminer.py].  Python values are modelled
    as the code has them: [bytes] objects are lists of [Byte.byte], Python
    integers are [Z], [str] objects are [string], [float] is IEEE 754
    binary64 as [SpecFloat] specifies it, and every operation that can
    raise carries its exception in the [result] type.

    The first half of the file holds the definitions: the Python run-time
    model, [hashlib]'s SHA-256, the functions and methods of pyminer.py
    under their own names, the vocabulary of the specification and the
    test data.  The second half holds the theorems, by subject: the
    byte-order transforms, hexadecimal text, the search loop, the
    submission splice, the work cycle and its recalibration. *)

From Stdlib Require Import String Ascii.
From Stdlib Require Import Strings.Byte.
From Stdlib Require Import ZArith List Lia Bool.
From Stdlib Require Import Floats.SpecFloat.
Import ListNotations.
Local Open Scope Z_scope.

(** ** Python run-time model: exceptions *)

Inductive exn : Type :=
  | StructError          (* struct.error *)
  | ValueError
  | TypeError
  | UnboundLocalError
  | ZeroDivisionError
  | OverflowError
  | JSONDecodeError
  | ConnectionError
  | KeyError.

Inductive result (A : Type) : Type :=
  | Ok (a : A)
  | Raise (e : exn).
Arguments Ok {A} a.
Arguments Raise {A} e.

Definition bind {A B : Type} (c : result A) (k : A -> result B) : result B :=
  match c with
  | Ok a => k a
  | Raise e => Raise e
  end.

Notation "x <- c1 ;; c2" := (bind c1 (fun x => c2))
  (at level 61, c1 at next level, right associativity).

Fixpoint mapM {A B : Type} (f : A -> result B) (l : list A) : result (list B) :=
  match l with
  | [] => Ok []
  | x :: tl => y <- f x ;; ys <- mapM f tl ;; Ok (y :: ys)
  end.

(** ** Bytes and the [struct] module *)

Definition byte_to_Z (b : byte) : Z := Z.of_N (Byte.to_N b).

Definition byte_of_Z (z : Z) : byte :=
  match Byte.of_N (Z.to_N (z mod 256)) with
  | Some b => b
  | None => x00
  end.

(** Byte order of a [struct] format: ['<'] is little-endian, ['>'] is
    big-endian, ['@'] is the order of the host, whichever it is. *)
Inductive byteorder : Type := LittleEndian | BigEndian.

(** [int.from_bytes(b, 'little')] and [int.to_bytes(4, 'little')]. *)
Fixpoint le_to_Z (bs : list byte) : Z :=
  match bs with
  | [] => 0
  | b :: tl => Z.lor (byte_to_Z b) (Z.shiftl (le_to_Z tl) 8)
  end.

Definition le_of_Z4 (x : Z) : list byte :=
  [ byte_of_Z (Z.land x 255);
    byte_of_Z (Z.land (Z.shiftr x 8) 255);
    byte_of_Z (Z.land (Z.shiftr x 16) 255);
    byte_of_Z (Z.land (Z.shiftr x 24) 255) ].

(** [struct.unpack(fmt + 'I', chunk)[0]]: a buffer that is not exactly four
    bytes long raises [struct.error]. *)
Definition unpack_I (order : byteorder) (chunk : list byte) : result Z :=
  match chunk with
  | [_; _; _; _] =>
      match order with
      | LittleEndian => Ok (le_to_Z chunk)
      | BigEndian => Ok (le_to_Z (rev chunk))
      end
  | _ => Raise StructError
  end.

(** [struct.pack(fmt + 'I', x)]: an argument outside [0, 2^32) raises
    [struct.error]. *)
Definition pack_I (order : byteorder) (x : Z) : result (list byte) :=
  if (0 <=? x) && (x <=? 0xffffffff) then
    match order with
    | LittleEndian => Ok (le_of_Z4 x)
    | BigEndian => Ok (rev (le_of_Z4 x))
    end
  else Raise StructError.

(** The slices [in_buf[i:i + 4]] for [i] in [range(0, len(in_buf), 4)]:
    the last one is shorter when the length is not a multiple of four. *)
Fixpoint chunks4 (in_buf : list byte) : list (list byte) :=
  match in_buf with
  | [] => []
  | a :: b :: c :: d :: rest => [a; b; c; d] :: chunks4 rest
  | short => [short]
  end.

(** ** Hexadecimal text: [bytes.fromhex], [bytes.hex] and [int(s, 16)] *)

Definition hexdigit (v : Z) : ascii :=
  match String.get (Z.to_nat v) "0123456789abcdef" with
  | Some c => c
  | None => "0"%char
  end.

Definition hexval (c : ascii) : option Z :=
  let n := Z.of_N (N_of_ascii c) in
  if (48 <=? n) && (n <=? 57) then Some (n - 48)
  else if (97 <=? n) && (n <=? 102) then Some (n - 87)
  else if (65 <=? n) && (n <=? 70) then Some (n - 55)
  else None.

(** [Py_ISSPACE]: space, tab, line feed, vertical tab, form feed, carriage
    return. *)
Definition is_space (c : ascii) : bool :=
  let n := Z.of_N (N_of_ascii c) in
  (n =? 32) || ((9 <=? n) && (n <=? 13)).

(** [bytes.hex()]: two lower-case digits per byte. *)
Fixpoint hex (bs : list byte) : string :=
  match bs with
  | [] => EmptyString
  | b :: tl =>
      String (hexdigit (Z.shiftr (byte_to_Z b) 4))
        (String (hexdigit (Z.land (byte_to_Z b) 15)) (hex tl))
  end.

(** [bytes.fromhex(s)]: white space is skipped before each pair of digits;
    anything else that is not a pair of hexadecimal digits raises
    [ValueError]. *)
Fixpoint fromhex (s : string) : result (list byte) :=
  match s with
  | EmptyString => Ok []
  | String c rest =>
      if is_space c then fromhex rest
      else
        match hexval c, rest with
        | Some top, String c' rest' =>
            match hexval c' with
            | Some bot => tl <- fromhex rest' ;; Ok (byte_of_Z (top * 16 + bot) :: tl)
            | None => Raise ValueError
            end
        | _, _ => Raise ValueError
        end
  end.

(** [int(s, 16)] on the digit strings the miner passes to it.  Every
    argument in pyminer.py is the result of [bytes.hex()], so the signs,
    prefixes, underscores and surrounding blanks that [int] also accepts
    never reach it; a string with such a character, like the empty string,
    is answered with [ValueError] here. *)
Fixpoint int_16_digits (acc : Z) (s : string) : result Z :=
  match s with
  | EmptyString => Ok acc
  | String c rest =>
      match hexval c with
      | Some v => int_16_digits (acc * 16 + v) rest
      | None => Raise ValueError
      end
  end.

Definition int_16 (s : string) : result Z :=
  match s with
  | EmptyString => Raise ValueError
  | _ => int_16_digits 0 s
  end.

(** Python slices [s[lo:hi]] of a [str] and [b[-n:]] of a [bytes]. *)
Definition str_slice (lo hi : nat) (s : string) : string :=
  substring lo (hi - lo) s.

Definition bytes_suffix (n : nat) (b : list byte) : list byte :=
  skipn (length b - n) b.

Definition bytes_eqb (x y : list byte) : bool :=
  if list_eq_dec Byte.byte_eq_dec x y then true else false.

(** ** Floating point: Python [float] is IEEE 754 binary64 *)

Definition float : Type := spec_float.
Definition prec : Z := 53.
Definition emax : Z := 1024.

Definition float_sub (x y : float) : float := SFsub prec emax x y.

(** [float(n)] for an [int]: correctly rounded, [OverflowError] when the
    integer is too large. *)
Definition float_of_int (n : Z) : result float :=
  match binary_normalize prec emax n 0 false with
  | S754_infinity _ => Raise OverflowError
  | f => Ok f
  end.

Definition float_is_zero (x : float) : bool :=
  match x with
  | S754_zero _ => true
  | _ => false
  end.

(** [n / x] for an [int] n and a [float] x. *)
Definition truediv_int_float (n : Z) (x : float) : result float :=
  fn <- float_of_int n ;;
  if float_is_zero x then Raise ZeroDivisionError
  else Ok (SFdiv prec emax fn x).

(** [int(x)] for a [float]: truncation toward zero. *)
Definition int_of_float (x : float) : result Z :=
  match x with
  | S754_nan => Raise ValueError
  | S754_infinity _ => Raise OverflowError
  | S754_zero _ => Ok 0
  | S754_finite s m e => Ok (cond_Zopp s (Z.shiftl (Zpos m) e))
  end.

(** ** JSON-RPC replies as Python values *)

#[local] Unset Elimination Schemes.
Inductive pyval : Type :=
  | PNone
  | PBool (b : bool)
  | PNum (n : Z)                          (* a JSON number *)
  | PStr (s : string)
  | PList (l : list pyval)
  | PDict (d : list (string * pyval)).
#[local] Set Elimination Schemes.

Definition is_None (v : pyval) : bool :=
  match v with
  | PNone => true
  | _ => false
  end.

Fixpoint dict_get (key : string) (d : list (string * pyval)) : option pyval :=
  match d with
  | [] => None
  | (k, v) :: tl => if String.eqb k key then Some v else dict_get key tl
  end.

(** [key in v] for a [str] key: membership in a dict, an element of a list,
    a substring of a string; [TypeError] for the other values. *)
Definition py_contains (key : string) (v : pyval) : result bool :=
  match v with
  | PDict d => Ok (match dict_get key d with Some _ => true | None => false end)
  | PList l =>
      Ok (existsb (fun x => match x with PStr s => String.eqb s key | _ => false end) l)
  | PStr s => Ok (match String.index 0 key s with Some _ => true | None => false end)
  | _ => Raise TypeError
  end.

(** [v[key]] for a [str] key. *)
Definition py_getitem (v : pyval) (key : string) : result pyval :=
  match v with
  | PDict d =>
      match dict_get key d with
      | Some x => Ok x
      | None => Raise KeyError
      end
  | _ => Raise TypeError
  end.

(** What one HTTP exchange of [BitcoinRPC.rpc] produces: the connection
    fails, [getresponse] hands back nothing, or there is a body on which
    [json.loads] either raises or yields a value. *)
Inductive http_exchange : Type :=
  | ConnectionFailed
  | NoResponse
  | Body (decoded : result pyval).

(** ** hashlib.sha256: the FIPS 180-4 function *)

Module SHA256.

Definition mask32 : Z := 0xffffffff.
Definition add32 (x y : Z) : Z := Z.land (x + y) mask32.
Definition rotr (n x : Z) : Z :=
  Z.lor (Z.shiftr x n) (Z.land (Z.shiftl x (32 - n)) mask32).
Definition shr (n x : Z) : Z := Z.shiftr x n.
Definition not32 (x : Z) : Z := Z.lxor x mask32.

Definition Ch (x y z : Z) : Z := Z.lxor (Z.land x y) (Z.land (not32 x) z).
Definition Maj (x y z : Z) : Z :=
  Z.lxor (Z.lxor (Z.land x y) (Z.land x z)) (Z.land y z).
Definition Sigma0 (x : Z) : Z := Z.lxor (Z.lxor (rotr 2 x) (rotr 13 x)) (rotr 22 x).
Definition Sigma1 (x : Z) : Z := Z.lxor (Z.lxor (rotr 6 x) (rotr 11 x)) (rotr 25 x).
Definition sigma0 (x : Z) : Z := Z.lxor (Z.lxor (rotr 7 x) (rotr 18 x)) (shr 3 x).
Definition sigma1 (x : Z) : Z := Z.lxor (Z.lxor (rotr 17 x) (rotr 19 x)) (shr 10 x).

(** The round constants are the first 32 bits of the fractional parts of
    the cube roots of the first 64 primes; the initial hash value is the
    same of the square roots of the first 8. *)
Definition primes : list Z :=
  [ 2; 3; 5; 7; 11; 13; 17; 19; 23; 29; 31; 37; 41; 43; 47; 53;
    59; 61; 67; 71; 73; 79; 83; 89; 97; 101; 103; 107; 109; 113; 127; 131;
    137; 139; 149; 151; 157; 163; 167; 173; 179; 181; 191; 193; 197; 199; 211; 223;
    227; 229; 233; 239; 241; 251; 257; 263; 269; 271; 277; 281; 283; 293; 307; 311 ].

(** Integer cube root, one bit at a time from bit 40 down. *)
Definition cube_root (n : Z) : Z :=
  fold_left (fun r i => let r' := r + 2 ^ Z.of_nat i in
                        if r' * r' * r' <=? n then r' else r)
            (rev (seq 0 41)) 0.

Definition K : list Z :=
  Eval vm_compute in map (fun p => Z.land (cube_root (p * 2 ^ 96)) mask32) primes.

Definition H0 : list Z :=
  Eval vm_compute in map (fun p => Z.land (Z.sqrt (p * 2 ^ 64)) mask32) (firstn 8 primes).

(** Big-endian words of a block and big-endian bytes of a word. *)
Fixpoint be_words (bs : list byte) : list Z :=
  match bs with
  | a :: b :: c :: d :: rest =>
      (byte_to_Z a * 0x1000000 + byte_to_Z b * 0x10000 + byte_to_Z c * 0x100 + byte_to_Z d)
      :: be_words rest
  | _ => []
  end.

Definition be_bytes (nbytes : nat) (x : Z) : list byte :=
  map (fun i => byte_of_Z (Z.shiftr x (8 * Z.of_nat i))) (rev (seq 0 nbytes)).

(** Padding: a 1 bit, zero bits up to 56 modulo 64 bytes, then the message
    length in bits as a 64-bit big-endian integer. *)
Definition pad (msg : list byte) : list byte :=
  let len := Z.of_nat (length msg) in
  let zeros := Z.to_nat ((55 - len) mod 64) in
  msg ++ [x80] ++ repeat x00 zeros ++ be_bytes 8 (8 * len).

(** The message schedule is kept as a window of the last sixteen words. *)
Definition next_window (w : list Z) : list Z :=
  tl w ++ [ add32 (add32 (add32 (sigma1 (nth 14 w 0)) (nth 9 w 0))
                         (sigma0 (nth 1 w 0)))
                  (nth 0 w 0) ].

Record regs : Type := mkRegs { ra : Z; rb : Z; rc : Z; rd : Z; re : Z; rf : Z; rg : Z; rh : Z }.

Definition round (st : regs * list Z) (k : Z) : regs * list Z :=
  let (r, w) := st in
  let t1 := add32 (add32 (add32 (add32 (rh r) (Sigma1 (re r))) (Ch (re r) (rf r) (rg r))) k)
                  (nth 0 w 0) in
  let t2 := add32 (Sigma0 (ra r)) (Maj (ra r) (rb r) (rc r)) in
  (mkRegs (add32 t1 t2) (ra r) (rb r) (rc r) (add32 (rd r) t1) (re r) (rf r) (rg r),
   next_window w).

Definition regs_of (h : list Z) : regs :=
  mkRegs (nth 0 h 0) (nth 1 h 0) (nth 2 h 0) (nth 3 h 0)
         (nth 4 h 0) (nth 5 h 0) (nth 6 h 0) (nth 7 h 0).

Definition list_of (r : regs) : list Z :=
  [ra r; rb r; rc r; rd r; re r; rf r; rg r; rh r].

Definition compress (h : list Z) (block : list byte) : list Z :=
  let (r, _) := fold_left round K (regs_of h, be_words block) in
  map (fun p => add32 (fst p) (snd p)) (combine h (list_of r)).

Fixpoint blocks (n : nat) (h : list Z) (bs : list byte) : list Z :=
  match n with
  | O => h
  | S n' => blocks n' (compress h (firstn 64 bs)) (skipn 64 bs)
  end.

Definition hash (msg : list byte) : list byte :=
  let padded := pad msg in
  let h := blocks (length padded / 64) H0 padded in
  flat_map (be_bytes 4) h.

End SHA256.

(** ** pyminer.py *)

Definition ERR_SLEEP : Z := 15.
Definition MAX_NONCE : Z := 1000000.

(** *** Lines 82-100: byte-order transforms *)

Definition uint32 (x : Z) : Z := Z.land x 0xffffffff.

Definition bytereverse (x : Z) : Z :=
  uint32 (Z.lor (Z.lor (Z.lor (Z.shiftl x 24)
                              (Z.land (Z.shiftl x 8) 0x00ff0000))
                       (Z.land (Z.shiftr x 8) 0x0000ff00))
                (Z.shiftr x 24)).

(** [range(n)] for an [int] n: empty when n is not positive. *)
Definition range (n : Z) : list Z := map Z.of_nat (seq 0 (Z.to_nat n)).

(** What a worker does to the outside world, in order. *)
Inductive event : Type :=
  | Sleep (seconds : Z)                   (* time.sleep *)
  | Search (bound : Z)                    (* a call of Miner.work *)
  | Submit (solution : string).           (* rpc.getwork([solution]) *)

(** The values one pass of [Miner.iterate] reads from the outside world. *)
Record cycle_io : Type := mkCycle {
  fetch_reply : http_exchange;            (* answer to rpc.getwork() *)
  time_start : float;                     (* first time.time() *)
  time_end : float;                       (* second time.time() *)
  submit_reply : http_exchange            (* answer to rpc.getwork([solution]) *)
}.

(** [class Miner]: the attributes of one worker. *)
Record Miner : Type := mkMiner {
  id : Z;
  max_nonce : Z
}.

(** Methods of a worker run in a monad of its attributes, the events
    emitted so far and a possible exception, which leaves both as they
    were when it was raised. *)
Definition M (A : Type) : Type := Miner * list event -> result A * (Miner * list event).

Definition ret {A : Type} (a : A) : M A := fun st => (Ok a, st).

Definition bindM {A B : Type} (c : M A) (k : A -> M B) : M B :=
  fun st =>
    match c st with
    | (Ok a, st') => k a st'
    | (Raise e, st') => (Raise e, st')
    end.

Definition lift {A : Type} (c : result A) : M A := fun st => (c, st).

Definition emit (ev : event) : M unit :=
  fun st => (Ok tt, (fst st, snd st ++ [ev])).

Definition get_max_nonce : M Z := fun st => (Ok (max_nonce (fst st)), st).

Definition set_max_nonce (n : Z) : M unit :=
  fun st => (Ok tt, (mkMiner (id (fst st)) n, snd st)).

Declare Scope miner_scope.
Delimit Scope miner_scope with miner.
Notation "x <-- c1 ;; c2" := (bindM c1 (fun x => c2))
  (at level 61, c1 at next level, right associativity) : miner_scope.
Notation "c1 ;;; c2" := (bindM c1 (fun _ => c2))
  (at level 61, right associativity) : miner_scope.

Section Host.

(** The byte order ['@'] of the machine the miner runs on. *)
Variable native : byteorder.

(** [hashlib.sha256(msg).digest()].  The miner treats the hash as a
    primitive; what is proved of the search holds for every function with
    32-byte digests, and [SHA256.hash] is the one [hashlib] computes. *)
Variable sha256 : list byte -> list byte.

(** [settings['scantime']], an [int] once the configuration is read. *)
Variable scantime : Z.

Definition bufreverse_word (chunk : list byte) : result (list byte) :=
  word <- unpack_I native chunk ;;
  pack_I native (bytereverse word).

Definition bufreverse (in_buf : list byte) : result (list byte) :=
  out_words <- mapM bufreverse_word (chunks4 in_buf) ;;
  Ok (concat out_words).

Definition wordreverse (in_buf : list byte) : list byte :=
  let out_words := chunks4 in_buf in
  concat (rev out_words).

(** *** hashlib objects: what has been fed to the hash so far *)

Record sha256_obj : Type := mkHash { consumed : list byte }.

Definition sha256_new : sha256_obj := mkHash [].
Definition update (h : sha256_obj) (data : list byte) : sha256_obj :=
  mkHash (consumed h ++ data).
Definition copy (h : sha256_obj) : sha256_obj := h.
Definition digest (h : sha256_obj) : list byte := sha256 (consumed h).

(** *** Lines 107-144: Miner.work *)

Definition bytes_fromhex (v : pyval) : result (list byte) :=
  match v with
  | PStr s => fromhex s
  | _ => Raise TypeError
  end.

(** Lines 108-110. *)
Definition block_header (datastr : pyval) : result (list byte) :=
  static_data <- bytes_fromhex datastr ;;
  static_data <- bufreverse static_data ;;
  Ok (firstn 76 static_data).

(** Lines 112-114. *)
Definition parse_target (targetstr : pyval) : result Z :=
  targetbin <- bytes_fromhex targetstr ;;
  let targetbin := rev targetbin in
  let targetbin_str := hex targetbin in
  int_16 targetbin_str.

(** Lines 120-142, one pass of the loop body: [Some nonce_bin] when the
    function returns from inside the loop, [None] when the loop goes on
    (after [continue] or after a false positive). *)
Definition try_nonce (static_hash : sha256_obj) (target nonce : Z)
  : result (option (list byte)) :=
  nonce_bin <- pack_I LittleEndian nonce ;;
  let hash1_o := copy static_hash in
  let hash1_o := update hash1_o nonce_bin in
  let hash1 := digest hash1_o in
  let hash_o := sha256_new in
  let hash_o := update hash_o hash1 in
  let hash_val := digest hash_o in
  if negb (bytes_eqb (bytes_suffix 4 hash_val) [x00; x00; x00; x00]) then Ok None
  else
    hash_val <- bufreverse hash_val ;;
    let hash_val := wordreverse hash_val in
    let hash_str := hex hash_val in
    l <- int_16 hash_str ;;
    if l <? target then Ok (Some nonce_bin)
    else Ok None.

(** Lines 119-144: the loop over [range(self.max_nonce)] and the
    statement after it.  [nonce_var] is the local variable [nonce]: unbound
    until the loop has assigned it once.  The two [print] calls of lines
    139 and 142 write to the console and change nothing else. *)
Fixpoint work_loop (static_hash : sha256_obj) (target : Z)
    (nonces : list Z) (nonce_var : option Z)
  : result (Z * option (list byte)) :=
  match nonces with
  | [] =>
      match nonce_var with
      | Some nonce => Ok (nonce + 1, None)
      | None => Raise UnboundLocalError
      end
  | nonce :: rest =>
      found <- try_nonce static_hash target nonce ;;
      match found with
      | Some nonce_bin => Ok (nonce + 1, Some nonce_bin)
      | None => work_loop static_hash target rest (Some nonce)
      end
  end.

Definition work (self_max_nonce : Z) (datastr targetstr : pyval)
  : result (Z * option (list byte)) :=
  blk_hdr <- block_header datastr ;;
  target <- parse_target targetstr ;;
  let static_hash := sha256_new in
  let static_hash := update static_hash blk_hdr in
  work_loop static_hash target (range self_max_nonce) None.

(** *** Lines 45-80: BitcoinRPC.rpc and getwork

    The request (its running [OBJID], method and parameters) decides
    nothing in the miner; the exchange is what comes back. *)

Definition rpc (x : http_exchange) : result pyval :=
  match x with
  | ConnectionFailed => Raise ConnectionError
  | NoResponse => Ok PNone
  | Body decoded =>
      resp_obj <- decoded ;;
      if is_None resp_obj then Ok PNone
      else
        has_error <- py_contains "error" resp_obj ;;
        err <- (if has_error then py_getitem resp_obj "error" else Ok PNone) ;;
        if has_error && negb (is_None err) then Ok err
        else
          has_result <- py_contains "result" resp_obj ;;
          if negb has_result then Ok PNone
          else py_getitem resp_obj "result"
  end.

Definition getwork (x : http_exchange) : result pyval := rpc x.

(** *** Lines 146-152: Miner.submit_work *)

Definition solution_of (original_data : string) (nonce_bin : list byte)
  : result string :=
  nonce_bin <- bufreverse nonce_bin ;;
  let nonce := hex nonce_bin in
  Ok (str_slice 0 152 original_data ++ nonce ++ str_slice 160 256 original_data)%string.

Local Open Scope miner_scope.

Definition submit_work (reply : http_exchange) (original_data : pyval)
    (nonce_bin : list byte) : M unit :=
  match original_data with
  | PStr data =>
      solution <-- lift (solution_of data nonce_bin) ;;
      emit (Submit solution) ;;;
      _result <-- lift (getwork reply) ;;
      ret tt
  | _ => lift (Raise TypeError)
  end.

(** *** Lines 154-179: Miner.iterate

    The hash meter of lines 174-176 only prints. *)

(** The right-hand side of line 170. *)
Definition raw_bound (hashes_done : Z) (time_diff : float) : result Z :=
  quotient <- truediv_int_float (hashes_done * scantime) time_diff ;;
  int_of_float quotient.

Definition iterate (io : cycle_io) : M unit :=
  work_v <-- lift (getwork (fetch_reply io)) ;;
  if is_None work_v then emit (Sleep ERR_SLEEP)
  else
    has_data <-- lift (py_contains "data" work_v) ;;
    missing <-- (if negb has_data then ret true
                 else has_target <-- lift (py_contains "target" work_v) ;;
                      ret (negb has_target)) ;;
    if (missing : bool) then emit (Sleep ERR_SLEEP)
    else
      data <-- lift (py_getitem work_v "data") ;;
      target <-- lift (py_getitem work_v "target") ;;
      bound <-- get_max_nonce ;;
      emit (Search bound) ;;;
      done <-- lift (work bound data target) ;;
      let hashes_done := fst done in
      let nonce_bin := snd done in
      let time_diff := float_sub (time_end io) (time_start io) in
      new_bound <-- lift (raw_bound hashes_done time_diff) ;;
      set_max_nonce new_bound ;;;
      (if new_bound >? 0xfffffffa then set_max_nonce 0xfffffffa else ret tt) ;;;
      match nonce_bin with
      | Some nb => submit_work (submit_reply io) data nb
      | None => ret tt
      end.

(** *** Lines 181-191: Miner.loop, on a finite prefix of its endless run *)

Fixpoint loop (cycles : list cycle_io) : M unit :=
  match cycles with
  | [] => ret tt
  | io :: rest => iterate io ;;; loop rest
  end.

Definition miner_thread (thr_id : Z) (cycles : list cycle_io)
  : result unit * (Miner * list event) :=
  loop cycles (mkMiner thr_id MAX_NONCE, []).

End Host.

(** ** Vocabulary of the specification *)

(** The complete four-byte words of a buffer, and the bytes after them. *)
Definition whole_words (buf : list byte) : list byte :=
  firstn (length buf - length buf mod 4) buf.

Definition remainder (buf : list byte) : list byte :=
  skipn (length buf - length buf mod 4) buf.

(** [int.from_bytes(bs, 'big')]. *)
Definition be_to_Z (bs : list byte) : Z :=
  fold_left (fun acc b => acc * 256 + byte_to_Z b) bs 0.

(** The double digest of a header prefix extended with a nonce, and its
    value: the digest in reversed byte order read as an integer. *)
Definition pow_digest (sha256 : list byte -> list byte)
    (blk_hdr : list byte) (nonce : Z) : list byte :=
  sha256 (sha256 (blk_hdr ++ le_of_Z4 nonce)).

Definition pow_value (sha256 : list byte -> list byte)
    (blk_hdr : list byte) (nonce : Z) : Z :=
  be_to_Z (rev (pow_digest sha256 blk_hdr nonce)).

(** The pre-filter of line 129 lets a digest through. *)
Definition ends_in_zero_word (d : list byte) : bool :=
  bytes_eqb (bytes_suffix 4 d) [x00; x00; x00; x00].

(** Half and double of a finite [float]: the same significand under the
    next exponent.  The half is exact whenever it is again a valid binary64
    number; the double of the largest exponent is infinite. *)
Definition halve (t : float) : float :=
  match t with
  | S754_finite s m e => S754_finite s m (e - 1)
  | _ => t
  end.

Definition double (q : float) : float :=
  match q with
  | S754_finite s m e =>
      if e + 1 <=? emax - prec then S754_finite s m (e + 1) else S754_infinity s
  | _ => q
  end.

(** [magnitude f] is the k with 2^(k-1) <= |f| < 2^k. *)
Definition magnitude (f : float) : Z :=
  match f with
  | S754_finite _ m e => Zpos (digits2_pos m) + e
  | _ => 0
  end.

Definition sign_of (f : float) : bool :=
  match f with
  | S754_zero s | S754_infinity s | S754_finite s _ _ => s
  | S754_nan => false
  end.

(** The bound line 171-172 leaves in [self.max_nonce]. *)
Definition clamp (new_bound : Z) : Z :=
  if new_bound >? 0xfffffffa then 0xfffffffa else new_bound.

(** ** Test data *)

(** Clock readings: 1.0, 2.0, 3.0, 4.0 and 101.0 seconds. *)
Definition f1 : float := S754_finite false 4503599627370496 (-52).
Definition f2 : float := S754_finite false 4503599627370496 (-51).
Definition f3 : float := S754_finite false 6755399441055744 (-51).
Definition f4 : float := S754_finite false 4503599627370496 (-50).
Definition f101 : float := S754_finite false 7107243161944064 (-46).

(** The [getwork] data of the Bitcoin regression-test genesis block: its
    80-byte header with the nonce field cleared and the 48 bytes of hash
    padding, each 32-bit word byte-swapped, in hexadecimal. *)
Definition regtest_data : string :=
  "000000010000000000000000000000000000000000000000000000000000000000000000fdeda33bb2127b7a3e2cc77a618f7667c31bc87f32518a88aab89f3a4a5e1e4b4d49e5da207fffff00000000000000800000000000000000000000000000000000000000000000000000000000000000000000000000000080020000".

(** The value of that header's double digest at nonce 1, plus one, in the
    byte order of the wire. *)
Definition regtest_target : string :=
  "69a8cd916398df763b185f10bb51a04ac988691b456b4132257dd30653a59208".

Definition zero_target : string :=
  "0000000000000000000000000000000000000000000000000000000000000000".

(** A stand-in for the hash function with digests that are easy to steer:
    the digest of an 80-byte message is its 77th byte followed by zeros,
    the digest of anything else depends on its first byte k only: 28 bytes
    of value 3 - k, then the word 1,0,0,0 when k is 0 and 0,0,0,0
    otherwise. *)
Definition toy_sha256 (msg : list byte) : list byte :=
  if (length msg =? 80)%nat then nth 76 msg x00 :: repeat x00 31
  else
    let k := byte_to_Z (nth 0 msg x00) in
    repeat (byte_of_Z (3 - k)) 28 ++ [if k =? 0 then x01 else x00; x00; x00; x00].

Definition toy_target : string :=
  "0202020202020202020202020202020202020202020202020202020200000000".

Definition five_bytes : list byte := [x01; x02; x03; x04; x05].
Definition six_bytes : list byte := [x0a; x0b; x0c; x0d; x0e; x0f].
Definition eight_bytes : list byte := [x01; x02; x03; x04; x05; x06; x07; x08].

(** A header text one character longer than the 256 of a [getwork] reply,
    and a nonce as line 120 packs it. *)
Definition long_data : string := (regtest_data ++ "7")%string.
Definition nonce_bin_2 : list byte := [x02; x00; x00; x00].

(** A reply to [getwork] with the regression-test header and a target of
    zero, and one without a target. *)
Definition zero_target_work : pyval :=
  PDict [("data"%string, PStr regtest_data); ("target"%string, PStr zero_target)].

Definition no_target_work : pyval :=
  PDict [("data"%string, PStr regtest_data)].

Definition reply_of (v : pyval) : http_exchange :=
  Body (Ok (PDict [("result"%string, v); ("error"%string, PNone); ("id"%string, PNum 2)])).

(** A cycle in which the clock steps back by one second during the search,
    one in which it does not move, and a worker about to search three
    nonces. *)
Definition clock_back : cycle_io := mkCycle (reply_of zero_target_work) f2 f1 NoResponse.
Definition clock_still : cycle_io := mkCycle (reply_of zero_target_work) f2 f2 NoResponse.
Definition worker3 : Miner * list event := (mkMiner 0 3, []).

(** A cycle that takes a hundred seconds. *)
Definition clock_slow : cycle_io := mkCycle (reply_of zero_target_work) f1 f101 NoResponse.

(** ** Further vocabulary *)

(** A nonce qualifies when line 129 lets its digest through and line 138
    finds its value below the target. *)
Definition qualifies (sha256 : list byte -> list byte)
    (blk_hdr : list byte) (target nonce : Z) : bool :=
  ends_in_zero_word (pow_digest sha256 blk_hdr nonce)
  && (pow_value sha256 blk_hdr nonce <? target).

(** A string of hexadecimal digits only. *)
Fixpoint all_hexdigits (s : string) : bool :=
  match s with
  | EmptyString => true
  | String c rest =>
      match hexval c with
      | Some _ => all_hexdigits rest
      | None => false
      end
  end.

(** The ceiling of line 171. *)
Definition NONCE_CEILING : Z := 0xfffffffa.

(** ** Further test data *)

Definition all_ones_target : string :=
  "ffffffffffffffffffffffffffffffffffffffffffffffffffffffffffffffff".

(** A search event within the ceiling. *)
Definition search_within_ceiling (ev : event) : Prop :=
  match ev with
  | Search bound => bound <= NONCE_CEILING
  | _ => True
  end.

(** A clock reading of 0.0 and one of 2^-40 seconds; a JSON-RPC error
    object as a server sends it. *)
Definition f0 : float := S754_zero false.
Definition f_tiny : float := S754_finite false 4503599627370496 (-92).
Definition clock_fast : cycle_io := mkCycle (reply_of zero_target_work) f0 f_tiny NoResponse.

Definition rpc_error_reply : list (string * pyval) :=
  [("result"%string, PNone);
   ("error"%string, PDict [("code"%string, PNum (-32601));
                           ("message"%string, PStr "Method not found")]);
   ("id"%string, PNum 2)].

(** The bytes of [regtest_data]. *)
Definition regtest_bytes : list byte :=
  Eval vm_compute in
    match fromhex regtest_data with
    | Ok bs => bs
    | Raise _ => []
    end.


(** What the loop keeps true of a worker. *)
Definition worker_ok (st : Miner * list event) : Prop :=
  max_nonce (fst st) <= NONCE_CEILING /\ Forall search_within_ceiling (snd st).



(** * Properties of the byte-order transforms *)

Lemma byte_to_Z_range (b : byte) : 0 <= byte_to_Z b < 256.
Proof.
  unfold byte_to_Z. pose proof (Byte.to_N_bounded b). lia.
Qed.

Lemma byte_of_to_Z (b : byte) : byte_of_Z (byte_to_Z b) = b.
Proof.
  unfold byte_of_Z, byte_to_Z.
  pose proof (Byte.to_N_bounded b).
  rewrite Z.mod_small by lia.
  rewrite N2Z.id, Byte.of_to_N. reflexivity.
Qed.

Lemma byte_testbit_high (b : byte) (n : Z) : 8 <= n -> Z.testbit (byte_to_Z b) n = false.
Proof.
  intros Hn. pose proof (byte_to_Z_range b) as Hb.
  destruct (Z.eq_dec (byte_to_Z b) 0) as [E|E].
  - rewrite E. apply Z.testbit_0_l.
  - apply Z.bits_above_log2; [lia|].
    assert (Z.log2 (byte_to_Z b) < 8); [|lia].
    apply Z.log2_lt_pow2; lia.
Qed.

Lemma testbit_255 (n : Z) : 0 <= n -> Z.testbit 255 n = (n <? 8).
Proof. intros. change 255 with (Z.ones 8). apply Z.testbit_ones_nonneg; lia. Qed.

Lemma testbit_mask32 (n : Z) : 0 <= n -> Z.testbit 0xffffffff n = (n <? 32).
Proof. intros. change 0xffffffff with (Z.ones 32). apply Z.testbit_ones_nonneg; lia. Qed.

Lemma testbit_mask_ff0000 (n : Z) : 0 <= n -> Z.testbit 0x00ff0000 n = (16 <=? n) && (n <? 24).
Proof.
  intros. change 0x00ff0000 with (Z.shiftl (Z.ones 8) 16).
  rewrite Z.shiftl_spec by lia.
  destruct (Z.leb_spec 16 n).
  - rewrite Z.testbit_ones_nonneg by lia. cbn [andb]. destruct (Z.ltb_spec (n-16) 8), (Z.ltb_spec n 24); try reflexivity; lia.
  - cbn [andb]. apply Z.testbit_neg_r. lia.
Qed.

Lemma testbit_mask_ff00 (n : Z) : 0 <= n -> Z.testbit 0x0000ff00 n = (8 <=? n) && (n <? 16).
Proof.
  intros. change 0x0000ff00 with (Z.shiftl (Z.ones 8) 8).
  rewrite Z.shiftl_spec by lia.
  destruct (Z.leb_spec 8 n).
  - rewrite Z.testbit_ones_nonneg by lia. cbn [andb]. destruct (Z.ltb_spec (n-8) 8), (Z.ltb_spec n 16); try reflexivity; lia.
  - cbn [andb]. apply Z.testbit_neg_r. lia.
Qed.

Lemma testbit_shiftl (a k m : Z) : 0 <= k -> Z.testbit (Z.shiftl a k) m = Z.testbit a (m - k).
Proof.
  intros Hk. destruct (Z.neg_nonneg_cases m) as [Hm|Hm].
  - rewrite !Z.testbit_neg_r by lia. reflexivity.
  - apply Z.shiftl_spec; assumption.
Qed.

Lemma testbit_le4 (a b c d : byte) (n : Z) :
  Z.testbit (le_to_Z [a; b; c; d]) n =
    if n <? 8 then Z.testbit (byte_to_Z a) n
    else if n <? 16 then Z.testbit (byte_to_Z b) (n - 8)
    else if n <? 24 then Z.testbit (byte_to_Z c) (n - 16)
    else Z.testbit (byte_to_Z d) (n - 24).
Proof.
  destruct (Z.neg_nonneg_cases n) as [Hn|Hn].
  { rewrite Z.testbit_neg_r by lia.
    destruct (Z.ltb_spec n 8); [|lia]. now rewrite Z.testbit_neg_r by lia. }
  cbn [le_to_Z].
  repeat (rewrite ?Z.lor_spec, ?testbit_shiftl by lia).
  rewrite Z.testbit_0_l, orb_false_r.
  destruct (Z.ltb_spec n 8); [|destruct (Z.ltb_spec n 16); [|destruct (Z.ltb_spec n 24)]].
  - rewrite (Z.testbit_neg_r _ (n-8)), (Z.testbit_neg_r _ (n-8-8)), (Z.testbit_neg_r _ (n-8-8-8)) by lia.
    now rewrite !orb_false_r.
  - rewrite (byte_testbit_high a), (Z.testbit_neg_r _ (n-8-8)), (Z.testbit_neg_r _ (n-8-8-8)) by lia.
    now rewrite !orb_false_r.
  - rewrite (byte_testbit_high a), (byte_testbit_high b), (Z.testbit_neg_r _ (n-8-8-8)) by lia.
    rewrite !orb_false_r. simpl. f_equal. lia.
  - rewrite (byte_testbit_high a), (byte_testbit_high b), (byte_testbit_high c) by lia.
    simpl. f_equal. lia.
Qed.

Ltac cases_cmp :=
  repeat match goal with
  | |- context [?a <? ?b] => destruct (Z.ltb_spec a b)
  | |- context [?a <=? ?b] => destruct (Z.leb_spec a b)
  end.

Lemma testbit_bytereverse (x n : Z) :
  0 <= n ->
  Z.testbit (bytereverse x) n =
    (n <? 32) &&
    (Z.testbit x (n - 24)
     || (Z.testbit x (n - 8) && ((16 <=? n) && (n <? 24)))
     || (Z.testbit x (n + 8) && ((8 <=? n) && (n <? 16)))
     || Z.testbit x (n + 24)).
Proof.
  intros Hn. unfold bytereverse, uint32.
  rewrite Z.land_spec, !Z.lor_spec, !Z.land_spec, !Z.shiftr_spec, !testbit_shiftl by lia.
  rewrite testbit_mask32, testbit_mask_ff0000, testbit_mask_ff00 by lia.
  apply andb_comm.
Qed.

Lemma bytereverse_range (x : Z) : 0 <= bytereverse x <= 0xffffffff.
Proof.
  unfold bytereverse, uint32.
  set (t := Z.lor _ _).
  change (Z.land t 0xffffffff) with (Z.land t (Z.ones 32)).
  rewrite Z.land_ones by lia.
  pose proof (Z.mod_pos_bound t (2 ^ 32)). lia.
Qed.

Lemma byte_eq_bits (y : Z) (k : Z) (d : byte) :
  0 <= k ->
  (forall n, 0 <= n < 8 -> Z.testbit y (n + k) = Z.testbit (byte_to_Z d) n) ->
  byte_of_Z (Z.land (Z.shiftr y k) 255) = d.
Proof.
  intros Hk H.
  replace (Z.land (Z.shiftr y k) 255) with (byte_to_Z d); [apply byte_of_to_Z|].
  apply Z.bits_inj'. intros n Hn.
  rewrite Z.land_spec, Z.shiftr_spec, testbit_255 by lia.
  destruct (Z.ltb_spec n 8).
  - rewrite H by lia. now rewrite andb_true_r.
  - rewrite byte_testbit_high by lia. now rewrite andb_false_r.
Qed.

Ltac kill_byte_bits :=
  repeat match goal with
  | |- context [Z.testbit (byte_to_Z ?x) ?i] =>
      first [ rewrite (Z.testbit_neg_r (byte_to_Z x) i) by lia
            | rewrite (byte_testbit_high x i) by lia ]
  end.

Lemma le_of_bytereverse (a b c d : byte) :
  le_of_Z4 (bytereverse (le_to_Z [a; b; c; d])) = [d; c; b; a].
Proof.
  unfold le_of_Z4.
  rewrite <- (Z.shiftr_0_r (bytereverse _)) at 1.
  f_equal; [|f_equal; [|f_equal; [|f_equal]]];
    (apply byte_eq_bits; [lia|]); intros n Hn;
    rewrite testbit_bytereverse by lia;
    rewrite !testbit_le4;
    cases_cmp; try lia; cbn [andb orb];
    kill_byte_bits;
    rewrite ?orb_false_r, ?andb_true_r, ?andb_false_r, ?orb_false_l;
    rewrite ?orb_false_r; f_equal; lia.
Qed.

Section ByteOrderFacts.

Variable native : byteorder.

Lemma bufreverse_word_4 (a b c d : byte) :
  bufreverse_word native [a; b; c; d] = Ok [d; c; b; a].
Proof.
  unfold bufreverse_word, unpack_I, pack_I.
  destruct native; cbn [bind rev app].
  - pose proof (bytereverse_range (le_to_Z [a; b; c; d])) as R.
    destruct (Z.leb_spec 0 (bytereverse (le_to_Z [a; b; c; d]))); [|lia].
    destruct (Z.leb_spec (bytereverse (le_to_Z [a; b; c; d])) 0xffffffff); [|lia].
    cbn [andb]. now rewrite le_of_bytereverse.
  - pose proof (bytereverse_range (le_to_Z [d; c; b; a])) as R.
    destruct (Z.leb_spec 0 (bytereverse (le_to_Z [d; c; b; a]))); [|lia].
    destruct (Z.leb_spec (bytereverse (le_to_Z [d; c; b; a])) 0xffffffff); [|lia].
    cbn [andb]. now rewrite le_of_bytereverse.
Qed.

End ByteOrderFacts.

(** Induction over a buffer four bytes at a time. *)
Lemma list_ind4 (P : list byte -> Prop) :
  P [] ->
  (forall a, P [a]) ->
  (forall a b, P [a; b]) ->
  (forall a b c, P [a; b; c]) ->
  (forall a b c d rest, P rest -> P (a :: b :: c :: d :: rest)) ->
  forall l, P l.
Proof.
  intros H0 H1 H2 H3 H4. fix IH 1.
  intros [|a [|b [|c [|d rest]]]];
    [apply H0 | apply H1 | apply H2 | apply H3 | apply H4, IH].
Qed.

Lemma length_mod4_step (a b c d : byte) (rest : list byte) :
  (length (a :: b :: c :: d :: rest) mod 4 = length rest mod 4)%nat.
Proof.
  cbn [length].
  replace (S (S (S (S (length rest))))) with (length rest + 1 * 4)%nat by lia.
  apply Nat.Div0.mod_add.
Qed.

Lemma chunks4_step (a b c d : byte) (rest : list byte) :
  chunks4 (a :: b :: c :: d :: rest) = [a; b; c; d] :: chunks4 rest.
Proof. reflexivity. Qed.

Lemma concat_chunks4 (buf : list byte) : concat (chunks4 buf) = buf.
Proof.
  induction buf as [| a | a b | a b c | a b c d rest IH] using list_ind4;
    try reflexivity.
  rewrite chunks4_step. cbn [concat app]. now rewrite IH.
Qed.

Lemma chunks4_app (x y : list byte) :
  (length x mod 4 = 0)%nat -> chunks4 (x ++ y) = chunks4 x ++ chunks4 y.
Proof.
  induction x as [| a | a b | a b c | a b c d rest IH] using list_ind4;
    intros H; try discriminate H; try reflexivity.
  rewrite length_mod4_step in H.
  cbn [app]. rewrite !chunks4_step, IH by assumption. reflexivity.
Qed.

Section TransformFacts.

Variable native : byteorder.

Lemma mapM_bufreverse_aligned (buf : list byte) :
  (length buf mod 4 = 0)%nat ->
  mapM (bufreverse_word native) (chunks4 buf) = Ok (map (@rev byte) (chunks4 buf)).
Proof.
  induction buf as [| a | a b | a b c | a b c d rest IH] using list_ind4;
    intros H; try discriminate H; try reflexivity.
  rewrite length_mod4_step in H.
  rewrite chunks4_step. cbn [mapM map].
  rewrite bufreverse_word_4. cbn [bind].
  rewrite IH by assumption. reflexivity.
Qed.

Lemma mapM_bufreverse_unaligned (buf : list byte) :
  (length buf mod 4 <> 0)%nat ->
  mapM (bufreverse_word native) (chunks4 buf) = Raise StructError.
Proof.
  induction buf as [| a | a b | a b c | a b c d rest IH] using list_ind4;
    intros H; try reflexivity.
  - now elim H.
  - rewrite length_mod4_step in H.
    rewrite chunks4_step. cbn [mapM].
    rewrite bufreverse_word_4. cbn [bind].
    rewrite IH by assumption. reflexivity.
Qed.

(** What [bufreverse] computes on a buffer of whole words: every word with
    its bytes in the opposite order. *)
Lemma bufreverse_aligned (buf : list byte) :
  (length buf mod 4 = 0)%nat ->
  bufreverse native buf = Ok (concat (map (@rev byte) (chunks4 buf))).
Proof.
  intros H. unfold bufreverse.
  now rewrite mapM_bufreverse_aligned.
Qed.

Lemma bufreverse_unaligned (buf : list byte) :
  (length buf mod 4 <> 0)%nat ->
  bufreverse native buf = Raise StructError.
Proof.
  intros H. unfold bufreverse.
  now rewrite mapM_bufreverse_unaligned.
Qed.

End TransformFacts.

Lemma swab_step (a b c d : byte) (rest : list byte) :
  concat (map (@rev byte) (chunks4 (a :: b :: c :: d :: rest)))
  = d :: c :: b :: a :: concat (map (@rev byte) (chunks4 rest)).
Proof. reflexivity. Qed.

Lemma swab_length (buf : list byte) :
  (length buf mod 4 = 0)%nat ->
  length (concat (map (@rev byte) (chunks4 buf))) = length buf.
Proof.
  induction buf as [| a | a b | a b c | a b c d rest IH] using list_ind4;
    intros H; try discriminate H; try reflexivity.
  rewrite length_mod4_step in H. rewrite swab_step.
  cbn [length]. now rewrite IH.
Qed.

Lemma swab_involutive (buf : list byte) :
  (length buf mod 4 = 0)%nat ->
  concat (map (@rev byte) (chunks4 (concat (map (@rev byte) (chunks4 buf))))) = buf.
Proof.
  induction buf as [| a | a b | a b c | a b c d rest IH] using list_ind4;
    intros H; try discriminate H; try reflexivity.
  rewrite length_mod4_step in H.
  rewrite swab_step, swab_step, IH by assumption. reflexivity.
Qed.

Lemma wordreverse_step (a b c d : byte) (rest : list byte) :
  wordreverse (a :: b :: c :: d :: rest) = wordreverse rest ++ [a; b; c; d].
Proof.
  unfold wordreverse. rewrite chunks4_step. cbn [rev].
  rewrite concat_app. cbn [concat]. now rewrite app_nil_r.
Qed.

Lemma wordreverse_length (buf : list byte) : length (wordreverse buf) = length buf.
Proof.
  induction buf as [| a | a b | a b c | a b c d rest IH] using list_ind4;
    try reflexivity.
  rewrite wordreverse_step, length_app, IH. cbn [length]. lia.
Qed.

Lemma wordreverse_app_word (x : list byte) (a b c d : byte) :
  (length x mod 4 = 0)%nat ->
  wordreverse (x ++ [a; b; c; d]) = a :: b :: c :: d :: wordreverse x.
Proof.
  intros H. unfold wordreverse.
  rewrite chunks4_app by assumption.
  cbn [chunks4]. rewrite rev_app_distr. reflexivity.
Qed.

Lemma wordreverse_involutive (buf : list byte) :
  (length buf mod 4 = 0)%nat -> wordreverse (wordreverse buf) = buf.
Proof.
  induction buf as [| a | a b | a b c | a b c d rest IH] using list_ind4;
    intros H; try discriminate H; try reflexivity.
  rewrite length_mod4_step in H.
  rewrite wordreverse_step, wordreverse_app_word.
  - now rewrite IH.
  - now rewrite wordreverse_length.
Qed.

Lemma wordreverse_swab (buf : list byte) :
  (length buf mod 4 = 0)%nat ->
  wordreverse (concat (map (@rev byte) (chunks4 buf))) = rev buf.
Proof.
  induction buf as [| a | a b | a b c | a b c d rest IH] using list_ind4;
    intros H; try discriminate H; try reflexivity.
  rewrite length_mod4_step in H.
  rewrite swab_step, wordreverse_step, IH by assumption.
  cbn [rev]. rewrite <- !app_assoc. reflexivity.
Qed.

Lemma whole_words_step (a b c d : byte) (rest : list byte) :
  whole_words (a :: b :: c :: d :: rest) = a :: b :: c :: d :: whole_words rest.
Proof.
  unfold whole_words. rewrite length_mod4_step.
  pose proof (Nat.Div0.mod_le (length rest) 4).
  cbn [length].
  replace (S (S (S (S (length rest)))) - length rest mod 4)%nat
    with (S (S (S (S (length rest - length rest mod 4))))) by lia.
  reflexivity.
Qed.

Lemma remainder_step (a b c d : byte) (rest : list byte) :
  remainder (a :: b :: c :: d :: rest) = remainder rest.
Proof.
  unfold remainder. rewrite length_mod4_step.
  pose proof (Nat.Div0.mod_le (length rest) 4).
  cbn [length].
  replace (S (S (S (S (length rest)))) - length rest mod 4)%nat
    with (S (S (S (S (length rest - length rest mod 4))))) by lia.
  reflexivity.
Qed.

Lemma wordreverse_remainder (buf : list byte) :
  wordreverse buf = remainder buf ++ wordreverse (whole_words buf).
Proof.
  induction buf as [| a | a b | a b c | a b c d rest IH] using list_ind4;
    try reflexivity.
  rewrite whole_words_step, remainder_step, !wordreverse_step, IH.
  now rewrite app_assoc.
Qed.

Lemma remainder_length (buf : list byte) :
  length (remainder buf) = (length buf mod 4)%nat.
Proof.
  unfold remainder. rewrite length_skipn.
  pose proof (Nat.Div0.mod_le (length buf) 4). lia.
Qed.

(** ** The transforms are involutions on whole words *)

(** C3: on a buffer whose length is a multiple of four, [bufreverse] twice
    gives back the buffer, and so does [wordreverse] twice. *)
Theorem transforms_involutive (native : byteorder) (buf : list byte) :
  (length buf mod 4 = 0)%nat ->
  (b <- bufreverse native buf ;; bufreverse native b) = Ok buf
  /\ wordreverse (wordreverse buf) = buf.
Proof.
  intros H. split.
  - rewrite bufreverse_aligned by assumption. cbn [bind].
    rewrite bufreverse_aligned by (now rewrite swab_length).
    now rewrite swab_involutive.
  - now apply wordreverse_involutive.
Qed.

Lemma transforms_involutive_witness :
  (length eight_bytes mod 4 = 0)%nat
  /\ ((b <- bufreverse BigEndian eight_bytes ;;
       bufreverse BigEndian b)
      = Ok eight_bytes
      /\ wordreverse (wordreverse eight_bytes)
         = eight_bytes).
Proof.
  split; [reflexivity|].
  apply (transforms_involutive BigEndian eight_bytes).
  reflexivity.
Defined.

(** ** A buffer that does not end on a word boundary *)

(** C8 as the specification words it: both transforms answer with the
    transform of the whole words, the bytes after them dropped.  Five bytes
    refute both halves: [bufreverse] raises and [wordreverse] keeps the
    fifth byte, in front. *)
Lemma remainder_dropped_counterexample :
  (length five_bytes mod 4 <> 0)%nat
  /\ bufreverse LittleEndian five_bytes = Raise StructError
  /\ bufreverse LittleEndian (whole_words five_bytes) = Ok [x04; x03; x02; x01]
  /\ wordreverse five_bytes = [x05; x01; x02; x03; x04]
  /\ wordreverse (whole_words five_bytes) = [x01; x02; x03; x04]
  /\ ~ (bufreverse LittleEndian five_bytes
        = bufreverse LittleEndian (whole_words five_bytes)
        /\ wordreverse five_bytes = wordreverse (whole_words five_bytes)).
Proof.
  repeat split; try reflexivity.
  - discriminate.
  - intros [H _]. discriminate H.
Qed.

(** C8, amended: on a buffer whose length is not a multiple of four,
    [bufreverse] raises [struct.error] on the short last slice and returns
    nothing, and [wordreverse] keeps the bytes after the last whole word and
    puts them in front of the reversed whole words; no byte is dropped. *)
Theorem remainder_not_dropped (native : byteorder) (buf : list byte) :
  (length buf mod 4 <> 0)%nat ->
  bufreverse native buf = Raise StructError
  /\ wordreverse buf = remainder buf ++ wordreverse (whole_words buf)
  /\ length (remainder buf) = (length buf mod 4)%nat
  /\ length (wordreverse buf) = length buf.
Proof.
  intros H. repeat split.
  - now apply bufreverse_unaligned.
  - apply wordreverse_remainder.
  - apply remainder_length.
  - apply wordreverse_length.
Qed.

Lemma remainder_not_dropped_witness :
  (length six_bytes mod 4 <> 0)%nat
  /\ (bufreverse LittleEndian six_bytes = Raise StructError
      /\ wordreverse six_bytes
         = remainder six_bytes
           ++ wordreverse (whole_words six_bytes)
      /\ length (remainder six_bytes) = (length six_bytes mod 4)%nat
      /\ length (wordreverse six_bytes)
         = length six_bytes).
Proof.
  assert (H : (length six_bytes mod 4 <> 0)%nat)
    by (cbn; discriminate).
  split; [exact H|].
  exact (remainder_not_dropped LittleEndian six_bytes H).
Defined.

(** * Hexadecimal text and integers *)

Lemma hexval_hexdigit (v : Z) : 0 <= v < 16 -> hexval (hexdigit v) = Some v.
Proof.
  intros H.
  assert (E : v = 0 \/ v = 1 \/ v = 2 \/ v = 3 \/ v = 4 \/ v = 5 \/ v = 6 \/ v = 7 \/
              v = 8 \/ v = 9 \/ v = 10 \/ v = 11 \/ v = 12 \/ v = 13 \/ v = 14 \/ v = 15)
    by lia.
  repeat (destruct E as [E|E]; [subst v; reflexivity|]).
  subst v; reflexivity.
Qed.

Lemma byte_nibbles (b : byte) :
  0 <= Z.shiftr (byte_to_Z b) 4 < 16
  /\ 0 <= Z.land (byte_to_Z b) 15 < 16
  /\ Z.shiftr (byte_to_Z b) 4 * 16 + Z.land (byte_to_Z b) 15 = byte_to_Z b.
Proof.
  pose proof (byte_to_Z_range b) as R.
  rewrite Z.shiftr_div_pow2 by lia.
  change 15 with (Z.ones 4). rewrite Z.land_ones by lia.
  change (2 ^ 4) with 16.
  pose proof (Z.div_mod (byte_to_Z b) 16 ltac:(lia)).
  pose proof (Z.mod_pos_bound (byte_to_Z b) 16 ltac:(lia)).
  assert (0 <= byte_to_Z b / 16 < 16)
    by (split; [apply Z.div_pos; lia | apply Z.div_lt_upper_bound; lia]).
  lia.
Qed.

Lemma int_16_digits_hex (bs : list byte) (acc : Z) :
  int_16_digits acc (hex bs)
  = Ok (fold_left (fun a b => a * 256 + byte_to_Z b) bs acc).
Proof.
  revert acc. induction bs as [|b tl IH]; intros acc; [reflexivity|].
  destruct (byte_nibbles b) as (Hhi & Hlo & Hsum).
  cbn [hex int_16_digits fold_left].
  rewrite (hexval_hexdigit _ Hhi), (hexval_hexdigit _ Hlo), IH.
  do 2 f_equal. lia.
Qed.

(** [int(bs.hex(), 16)] reads the bytes as a big-endian integer; the empty
    string is not a number. *)
Lemma int_16_hex (bs : list byte) :
  bs <> [] -> int_16 (hex bs) = Ok (be_to_Z bs).
Proof.
  intros H. destruct bs as [|b tl]; [now elim H|].
  unfold int_16. change (hex (b :: tl)) with
    (String (hexdigit (Z.shiftr (byte_to_Z b) 4))
       (String (hexdigit (Z.land (byte_to_Z b) 15)) (hex tl))).
  cbv iota.
  change (String (hexdigit (Z.shiftr (byte_to_Z b) 4))
           (String (hexdigit (Z.land (byte_to_Z b) 15)) (hex tl)))
    with (hex (b :: tl)).
  apply int_16_digits_hex.
Qed.

Lemma int_16_hex_nil : int_16 (hex []) = Raise ValueError.
Proof. reflexivity. Qed.

Lemma le_to_Z_nonneg (bs : list byte) : 0 <= le_to_Z bs.
Proof.
  induction bs as [|b tl IH]; [reflexivity|].
  cbn [le_to_Z]. apply Z.lor_nonneg. split.
  - apply byte_to_Z_range.
  - apply Z.shiftl_nonneg. assumption.
Qed.

Lemma le_to_Z_cons (b : byte) (tl : list byte) :
  le_to_Z (b :: tl) = byte_to_Z b + 256 * le_to_Z tl.
Proof.
  cbn [le_to_Z].
  rewrite <- Z.lxor_lor, <- Z.add_nocarry_lxor.
  - rewrite Z.shiftl_mul_pow2 by lia. change (2 ^ 8) with 256. lia.
  - apply Z.bits_inj'. intros n Hn.
    rewrite Z.land_spec, testbit_shiftl, Z.bits_0 by lia.
    destruct (Z.ltb_spec n 8).
    + rewrite (Z.testbit_neg_r _ (n - 8)) by lia. apply andb_false_r.
    + rewrite byte_testbit_high by lia. reflexivity.
  - apply Z.bits_inj'. intros n Hn.
    rewrite Z.land_spec, testbit_shiftl, Z.bits_0 by lia.
    destruct (Z.ltb_spec n 8).
    + rewrite (Z.testbit_neg_r _ (n - 8)) by lia. apply andb_false_r.
    + rewrite byte_testbit_high by lia. reflexivity.
Qed.

Lemma be_to_Z_rev (bs : list byte) : be_to_Z (rev bs) = le_to_Z bs.
Proof.
  unfold be_to_Z.
  rewrite <- fold_left_rev_right, rev_involutive.
  induction bs as [|b tl IH]; [reflexivity|].
  cbn [fold_right]. rewrite IH, le_to_Z_cons. lia.
Qed.

Lemma le_to_Z_app (x y : list byte) :
  le_to_Z (x ++ y) = le_to_Z x + 2 ^ (8 * Z.of_nat (length x)) * le_to_Z y.
Proof.
  induction x as [|b tl IH].
  - cbn [app length le_to_Z]. change (2 ^ (8 * Z.of_nat 0)) with 1. lia.
  - cbn [app]. rewrite !le_to_Z_cons, IH.
    cbn [length]. rewrite Nat2Z.inj_succ.
    replace (8 * Z.succ (Z.of_nat (length tl))) with (8 * Z.of_nat (length tl) + 8) by lia.
    rewrite Z.pow_add_r by lia. change (2 ^ 8) with 256. lia.
Qed.

Lemma le_to_Z_zero (bs : list byte) :
  le_to_Z bs = 0 -> bs = repeat x00 (length bs).
Proof.
  induction bs as [|b tl IH]; intros H; [reflexivity|].
  rewrite le_to_Z_cons in H.
  pose proof (byte_to_Z_range b). pose proof (le_to_Z_nonneg tl).
  assert (Hb : byte_to_Z b = 0) by lia.
  assert (Ht : le_to_Z tl = 0) by lia.
  cbn [length repeat]. rewrite <- IH by assumption.
  f_equal. rewrite <- (byte_of_to_Z b), Hb. reflexivity.
Qed.

(** A 32-byte digest below 2^224 ends in four zero bytes: the pre-filter
    of line 129 cannot reject it. *)
Lemma small_value_ends_in_zero_word (d : list byte) :
  length d = 32%nat -> le_to_Z d < 2 ^ 224 -> ends_in_zero_word d = true.
Proof.
  intros Hlen Hval. unfold ends_in_zero_word, bytes_suffix.
  rewrite Hlen. change (32 - 4)%nat with 28%nat.
  rewrite <- (firstn_skipn 28 d) in Hval.
  rewrite le_to_Z_app in Hval.
  rewrite length_firstn, Hlen in Hval. change (Init.Nat.min 28 32) with 28%nat in Hval.
  change (2 ^ (8 * Z.of_nat 28)) with (2 ^ 224) in Hval.
  pose proof (le_to_Z_nonneg (firstn 28 d)).
  pose proof (le_to_Z_nonneg (skipn 28 d)).
  assert (Hz : le_to_Z (skipn 28 d) = 0) by nia.
  apply le_to_Z_zero in Hz.
  rewrite length_skipn, Hlen in Hz. change (32 - 28)%nat with 4%nat in Hz.
  rewrite Hz. reflexivity.
Qed.

(** * The hash function *)

Example sha256_abc :
  hex (SHA256.hash (list_byte_of_string "abc"))
  = "ba7816bf8f01cfea414140de5dae2223b00361a396177a9cb410ff61f20015ad"%string.
Proof. vm_compute. reflexivity. Qed.

Example sha256_empty :
  hex (SHA256.hash [])
  = "e3b0c44298fc1c149afbf4c8996fb92427ae41e4649b934ca495991b7852b855"%string.
Proof. vm_compute. reflexivity. Qed.

Example sha256_two_blocks :
  hex (SHA256.hash (list_byte_of_string
         "abcdbcdecdefdefgefghfghighijhijkijkljklmklmnlmnomnopnopq"))
  = "248d6a61d20638b8e5c026930c3e6039a33ce45964ff2167f6ecedd419db06c1"%string.
Proof. vm_compute. reflexivity. Qed.

Lemma compress_length (h : list Z) (block : list byte) :
  length h = 8%nat -> length (SHA256.compress h block) = 8%nat.
Proof.
  intros H. unfold SHA256.compress.
  destruct (fold_left SHA256.round SHA256.K (SHA256.regs_of h, SHA256.be_words block)) as [r w].
  rewrite length_map, length_combine, H. reflexivity.
Qed.

Lemma blocks_length (n : nat) (h : list Z) (bs : list byte) :
  length h = 8%nat -> length (SHA256.blocks n h bs) = 8%nat.
Proof.
  revert h bs. induction n as [|n IH]; intros h bs H; [exact H|].
  cbn [SHA256.blocks]. apply IH. now apply compress_length.
Qed.

Lemma sha256_length (msg : list byte) : length (SHA256.hash msg) = 32%nat.
Proof.
  unfold SHA256.hash.
  pose proof (blocks_length (length (SHA256.pad msg) / 64) SHA256.H0 (SHA256.pad msg)
                eq_refl) as H.
  destruct (SHA256.blocks _ _ _) as [|a [|b [|c [|d [|e [|f [|g [|h [|]]]]]]]]];
    try discriminate H.
  reflexivity.
Qed.

Lemma toy_sha256_length (msg : list byte) : length (toy_sha256 msg) = 32%nat.
Proof.
  unfold toy_sha256. destruct (length msg =? 80)%nat.
  - cbn [length]. now rewrite repeat_length.
  - rewrite length_app, repeat_length. reflexivity.
Qed.

(** * The search loop *)

Lemma In_range (n m : Z) : In m (range n) <-> 0 <= m < n.
Proof.
  unfold range. rewrite in_map_iff. split.
  - intros (k & <- & Hk). apply in_seq in Hk. lia.
  - intros H. exists (Z.to_nat m). split; [lia|]. apply in_seq. lia.
Qed.

Lemma range_nonpos (n : Z) : n <= 0 -> range n = [].
Proof.
  intros H. unfold range.
  replace (Z.to_nat n) with 0%nat by lia. reflexivity.
Qed.

Lemma range_split (n k : Z) :
  0 <= k < n ->
  exists rest, range n = range k ++ k :: rest.
Proof.
  intros H. unfold range.
  replace (Z.to_nat n) with (Z.to_nat k + S (Z.to_nat n - Z.to_nat k - 1))%nat by lia.
  rewrite seq_app, map_app. cbn [seq map Nat.add].
  rewrite Z2Nat.id by lia. eauto.
Qed.

Lemma range_snoc (n : Z) : 0 < n -> range n = range (n - 1) ++ [n - 1].
Proof.
  intros H. unfold range.
  replace (Z.to_nat n) with (Z.to_nat (n - 1) + 1)%nat by lia.
  rewrite seq_app, map_app. cbn [seq map Nat.add].
  rewrite Z2Nat.id by lia. reflexivity.
Qed.

Lemma last_cons_default {A : Type} (l : list A) (x d : A) :
  last (x :: l) d = last l x.
Proof.
  revert x d. induction l as [|y tl IH]; intros x d; [reflexivity|].
  change (last (x :: y :: tl) d) with (last (y :: tl) d).
  now rewrite !IH.
Qed.

Section Search.

Variable native : byteorder.
Variable sha256 : list byte -> list byte.
Hypothesis sha256_len : forall msg, length (sha256 msg) = 32%nat.

Lemma pack_nonce (n : Z) :
  0 <= n <= 0xffffffff -> pack_I LittleEndian n = Ok (le_of_Z4 n).
Proof.
  intros H. unfold pack_I.
  destruct (Z.leb_spec 0 n); [|lia].
  destruct (Z.leb_spec n 0xffffffff); [|lia].
  reflexivity.
Qed.

(** The value line 136 computes from a digest. *)
Lemma digest_value (d : list byte) :
  length d = 32%nat ->
  (hash_val <- bufreverse native d ;; int_16 (hex (wordreverse hash_val)))
  = Ok (be_to_Z (rev d)).
Proof.
  intros H.
  assert (A : (length d mod 4 = 0)%nat) by (now rewrite H).
  rewrite bufreverse_aligned by assumption. cbn [bind].
  rewrite wordreverse_swab by assumption.
  apply int_16_hex. intros E. apply (f_equal (@length byte)) in E.
  rewrite length_rev, H in E. discriminate E.
Qed.

(** One pass of the loop body: the nonce is returned exactly when its
    digest ends in four zero bytes and its value is below the target. *)
Lemma try_nonce_spec (blk_hdr : list byte) (target n : Z) :
  0 <= n <= 0xffffffff ->
  try_nonce native sha256 (update sha256_new blk_hdr) target n
  = Ok (if ends_in_zero_word (pow_digest sha256 blk_hdr n)
           && (pow_value sha256 blk_hdr n <? target)
        then Some (le_of_Z4 n) else None).
Proof.
  intros H. unfold try_nonce. rewrite pack_nonce by assumption. cbn [bind].
  unfold copy, update, digest, sha256_new. cbn [consumed app].
  change (sha256 (sha256 (blk_hdr ++ le_of_Z4 n))) with (pow_digest sha256 blk_hdr n).
  fold (ends_in_zero_word (pow_digest sha256 blk_hdr n)).
  destruct (ends_in_zero_word (pow_digest sha256 blk_hdr n)); cbn [negb andb]; [|reflexivity].
  pose proof (digest_value (pow_digest sha256 blk_hdr n) (sha256_len _)) as V.
  destruct (bufreverse native (pow_digest sha256 blk_hdr n)) as [hv|e];
    cbn [bind] in V |- *; [|discriminate V].
  rewrite V. cbn [bind]. fold (pow_value sha256 blk_hdr n).
  destruct (pow_value sha256 blk_hdr n <? target); reflexivity.
Qed.

Lemma work_loop_skip (h : sha256_obj) (target : Z) (skipped rest : list Z)
    (nonce_var : option Z) :
  (forall m, In m skipped -> try_nonce native sha256 h target m = Ok None) ->
  work_loop native sha256 h target (skipped ++ rest) nonce_var
  = work_loop native sha256 h target rest (last (map Some skipped) nonce_var).
Proof.
  revert nonce_var. induction skipped as [|m tl IH]; intros nonce_var H; [reflexivity|].
  cbn [app work_loop]. rewrite (H m) by (now left). cbn [bind].
  rewrite IH by (intros k Hk; apply H; now right).
  f_equal. cbn [map]. symmetry. apply last_cons_default.
Qed.

Lemma last_range (n : Z) : 0 < n -> last (map Some (range n)) None = Some (n - 1).
Proof.
  intros H. rewrite (range_snoc n H), map_app. cbn [map]. apply last_last.
Qed.

(** The loop when no nonce below the bound is returned. *)
Lemma work_loop_exhausted (h : sha256_obj) (target bound : Z) :
  (forall m, 0 <= m < bound -> try_nonce native sha256 h target m = Ok None) ->
  work_loop native sha256 h target (range bound) None
  = if bound <=? 0 then Raise UnboundLocalError else Ok (bound, None).
Proof.
  intros H.
  rewrite <- (app_nil_r (range bound)), work_loop_skip
    by (intros m Hm; apply H; now apply In_range).
  cbn [work_loop].
  destruct (Z.leb_spec bound 0).
  - now rewrite range_nonpos.
  - rewrite last_range by lia. do 2 f_equal. lia.
Qed.

(** The loop when [n] is the first nonce that is returned. *)
Lemma work_loop_found (h : sha256_obj) (target bound n : Z) (nonce_bin : list byte) :
  0 <= n < bound ->
  (forall m, 0 <= m < n -> try_nonce native sha256 h target m = Ok None) ->
  try_nonce native sha256 h target n = Ok (Some nonce_bin) ->
  work_loop native sha256 h target (range bound) None = Ok (n + 1, Some nonce_bin).
Proof.
  intros Hn Hskip Hfound.
  destruct (range_split bound n Hn) as [rest ->].
  rewrite work_loop_skip by (intros m Hm; apply Hskip; now apply In_range).
  cbn [work_loop]. rewrite Hfound. reflexivity.
Qed.

End Search.

Lemma pow_value_nonneg (sha256 : list byte -> list byte) (blk_hdr : list byte) (n : Z) :
  0 <= pow_value sha256 blk_hdr n.
Proof. unfold pow_value. rewrite be_to_Z_rev. apply le_to_Z_nonneg. Qed.

(** ** One byte order for digest and target *)

(** C10: on a buffer of whole words, [bufreverse] followed by [wordreverse]
    is the reversal of the whole buffer, the transform line 112 applies to
    the target; the integer line 136 reads from it is the one line 114
    would read from the same bytes. *)
Theorem bufreverse_wordreverse_is_reversal (native : byteorder) (buf : list byte) :
  (length buf mod 4 = 0)%nat ->
  (b <- bufreverse native buf ;; Ok (wordreverse b)) = Ok (rev buf)
  /\ (b <- bufreverse native buf ;; int_16 (hex (wordreverse b)))
     = int_16 (hex (rev buf)).
Proof.
  intros H. rewrite bufreverse_aligned by assumption. cbn [bind].
  rewrite wordreverse_swab by assumption. split; reflexivity.
Qed.

Lemma bufreverse_wordreverse_is_reversal_witness :
  (length eight_bytes mod 4 = 0)%nat
  /\ ((b <- bufreverse LittleEndian eight_bytes ;; Ok (wordreverse b))
      = Ok (rev eight_bytes)
      /\ (b <- bufreverse LittleEndian eight_bytes ;; int_16 (hex (wordreverse b)))
         = int_16 (hex (rev eight_bytes))).
Proof.
  split; [reflexivity|].
  apply (bufreverse_wordreverse_is_reversal LittleEndian eight_bytes).
  reflexivity.
Defined.

(** ** The search *)

(** C1 as the specification words it fails on the regression-test genesis
    header: with the target set to the value of nonce 1 plus one, nonce 1
    is below the bound 2 and is the only nonce whose value is below the
    target, yet its digest does not end in four zero bytes, line 129 skips
    it, and the search ends without a nonce. *)
Lemma prefilter_skips_qualifying_nonce :
  exists blk_hdr target,
    block_header LittleEndian (PStr regtest_data) = Ok blk_hdr
    /\ length blk_hdr = 76%nat
    /\ parse_target (PStr regtest_target) = Ok target
    /\ target = pow_value SHA256.hash blk_hdr 1 + 1
    /\ 0 <= 1 < 2
    /\ pow_value SHA256.hash blk_hdr 1 < target
    /\ target <= pow_value SHA256.hash blk_hdr 0
    /\ ends_in_zero_word (pow_digest SHA256.hash blk_hdr 1) = false
    /\ work LittleEndian SHA256.hash 2 (PStr regtest_data) (PStr regtest_target)
       = Ok (2, None)
    /\ work LittleEndian SHA256.hash 2 (PStr regtest_data) (PStr regtest_target)
       <> Ok (1 + 1, Some (le_of_Z4 1)).
Proof.
  eexists. eexists.
  split; [vm_compute; reflexivity|].
  split; [vm_compute; reflexivity|].
  split; [vm_compute; reflexivity|].
  split; [vm_compute; reflexivity|].
  split; [lia|].
  split; [vm_compute; reflexivity|].
  split; [vm_compute; discriminate|].
  split; [vm_compute; reflexivity|].
  split; [vm_compute; reflexivity|].
  vm_compute. discriminate.
Qed.

(** C1, amended: the search returns the least nonce below the bound whose
    digest ends in four zero bytes and whose value is below the target,
    with [attempts = nonce + 1].  A nonce whose value is below the target
    is returned when its digest passes the pre-filter of line 129, which
    every digest does when the target is at most 2^224. *)
Theorem search_returns_first_qualifying_nonce
    (native : byteorder) (sha256 : list byte -> list byte)
    (self_max_nonce : Z) (datastr targetstr : pyval)
    (blk_hdr : list byte) (target n : Z) :
  (forall msg, length (sha256 msg) = 32%nat) ->
  block_header native datastr = Ok blk_hdr ->
  parse_target targetstr = Ok target ->
  0 <= n < self_max_nonce ->
  n <= 0xffffffff ->
  pow_value sha256 blk_hdr n < target ->
  ends_in_zero_word (pow_digest sha256 blk_hdr n) = true \/ target <= 2 ^ 224 ->
  (forall m, 0 <= m < n ->
     ends_in_zero_word (pow_digest sha256 blk_hdr m) = false
     \/ target <= pow_value sha256 blk_hdr m) ->
  work native sha256 self_max_nonce datastr targetstr = Ok (n + 1, Some (le_of_Z4 n)).
Proof.
  intros Hlen Hhdr Htgt Hn Hn32 Hval Hpre Hfirst.
  unfold work. rewrite Hhdr, Htgt. cbn [bind].
  apply work_loop_found; [assumption | idtac | idtac].
  - intros m Hm. rewrite try_nonce_spec by (assumption || lia).
    destruct (Hfirst m Hm) as [E|E].
    + now rewrite E.
    + destruct (Z.ltb_spec (pow_value sha256 blk_hdr m) target); [lia|].
      now rewrite andb_false_r.
  - rewrite try_nonce_spec by (assumption || lia).
    assert (E : ends_in_zero_word (pow_digest sha256 blk_hdr n) = true).
    { destruct Hpre as [E|E]; [exact E|].
      apply small_value_ends_in_zero_word; [apply Hlen|].
      unfold pow_value in Hval. rewrite be_to_Z_rev in Hval. lia. }
    rewrite E. destruct (Z.ltb_spec (pow_value sha256 blk_hdr n) target); [|lia].
    reflexivity.
Qed.

(** A digest of the hash function itself that ends in four zero bytes takes
    some 2^32 trials to find, so the statement is run on [toy_sha256]:
    nonce 0 is stopped by the pre-filter, nonce 1 passes it with a value
    equal to the target (a false positive), nonce 2 is returned. *)
Lemma search_returns_first_qualifying_nonce_witness :
  work LittleEndian toy_sha256 5 (PStr regtest_data) (PStr toy_target)
  = Ok (2 + 1, Some (le_of_Z4 2)).
Proof.
  eapply (search_returns_first_qualifying_nonce LittleEndian toy_sha256 5
            (PStr regtest_data) (PStr toy_target)).
  - exact toy_sha256_length.
  - vm_compute. reflexivity.
  - vm_compute. reflexivity.
  - lia.
  - lia.
  - vm_compute. reflexivity.
  - left. vm_compute. reflexivity.
  - intros m Hm. assert (E : m = 0 \/ m = 1) by lia.
    destruct E as [-> | ->].
    + left. vm_compute. reflexivity.
    + right. vm_compute. discriminate.
Defined.

(** C2: with [self.max_nonce = 0] the loop body never runs, the variable
    [nonce] of line 144 is unbound and the call raises: whatever the header
    and the target, [work] does not return. *)
Theorem zero_bound_raises
    (native : byteorder) (sha256 : list byte -> list byte)
    (datastr targetstr : pyval) :
  work native sha256 0 datastr targetstr
  = (_ <- block_header native datastr ;;
     _ <- parse_target targetstr ;;
     Raise UnboundLocalError)
  /\ exists e, work native sha256 0 datastr targetstr = Raise e.
Proof.
  unfold work. change (range 0) with (@nil Z). cbn [work_loop].
  split; [reflexivity|].
  destruct (block_header native datastr) as [h|e]; cbn [bind]; [|eauto].
  destruct (parse_target targetstr) as [t|e]; cbn [bind]; eauto.
Qed.

Example regtest_header_bound_zero :
  work LittleEndian SHA256.hash 0 (PStr regtest_data) (PStr zero_target)
  = Raise UnboundLocalError.
Proof. vm_compute. reflexivity. Qed.

(** C4: with a target of zero no nonce is returned; the search runs through
    the bound and reports it as [attempts] for every bound from 1 up, and
    raises at line 144 for a bound of zero. *)
Theorem zero_target_exhausts_bound
    (native : byteorder) (sha256 : list byte -> list byte)
    (bound : Z) (datastr targetstr : pyval) (blk_hdr : list byte) :
  (forall msg, length (sha256 msg) = 32%nat) ->
  block_header native datastr = Ok blk_hdr ->
  parse_target targetstr = Ok 0 ->
  bound <= 0x100000000 ->
  work native sha256 bound datastr targetstr
  = if bound <=? 0 then Raise UnboundLocalError else Ok (bound, None).
Proof.
  intros Hlen Hhdr Htgt Hb.
  unfold work. rewrite Hhdr, Htgt. cbn [bind].
  apply work_loop_exhausted.
  intros m Hm. rewrite try_nonce_spec by (assumption || lia).
  pose proof (pow_value_nonneg sha256 blk_hdr m).
  destruct (Z.ltb_spec (pow_value sha256 blk_hdr m) 0); [lia|].
  now rewrite andb_false_r.
Qed.

Lemma zero_target_exhausts_bound_witness :
  work LittleEndian SHA256.hash 3 (PStr regtest_data) (PStr zero_target)
  = Ok (3, None)
  /\ work LittleEndian SHA256.hash 0 (PStr regtest_data) (PStr zero_target)
     = Raise UnboundLocalError.
Proof.
  split.
  - eapply (zero_target_exhausts_bound LittleEndian SHA256.hash 3
              (PStr regtest_data) (PStr zero_target)).
    + exact sha256_length.
    + vm_compute. reflexivity.
    + vm_compute. reflexivity.
    + lia.
  - eapply (zero_target_exhausts_bound LittleEndian SHA256.hash 0
              (PStr regtest_data) (PStr zero_target)).
    + exact sha256_length.
    + vm_compute. reflexivity.
    + vm_compute. reflexivity.
    + lia.
Defined.

(** * The submission splice *)

Lemma str_length_append (s1 s2 : string) :
  String.length (s1 ++ s2) = (String.length s1 + String.length s2)%nat.
Proof.
  induction s1 as [|c s1 IH]; [reflexivity|].
  cbn [String.append String.length]. now rewrite IH.
Qed.

Lemma str_length_substring (s : string) (n m : nat) :
  String.length (substring n m s) = Nat.min m (String.length s - n).
Proof.
  revert n m. induction s as [|c s IH]; intros n m.
  - destruct n, m; reflexivity.
  - destruct n as [|n].
    + destruct m as [|m]; [reflexivity|].
      cbn [substring String.length]. rewrite IH. cbn [Nat.sub]. lia.
    + cbn [substring String.length]. rewrite IH. reflexivity.
Qed.

Lemma str_get_beyond (s : string) (n : nat) :
  (String.length s <= n)%nat -> String.get n s = None.
Proof.
  revert n. induction s as [|c s IH]; intros n H; [destruct n; reflexivity|].
  destruct n as [|n]; cbn [String.length] in H; [lia|].
  cbn [String.get]. apply IH. lia.
Qed.

Lemma hex_length (bs : list byte) : String.length (hex bs) = (2 * length bs)%nat.
Proof.
  induction bs as [|b tl IH]; [reflexivity|].
  cbn [hex String.length length]. rewrite IH. lia.
Qed.

Lemma substring_prefix (t s : string) :
  substring 0 (String.length t) (t ++ s) = t.
Proof.
  induction t as [|c t IH].
  - destruct s; reflexivity.
  - cbn [String.length String.append substring]. now rewrite IH.
Qed.

Lemma substring_skip (s1 s : string) (m : nat) :
  substring (String.length s1) m (s1 ++ s) = substring 0 m s.
Proof.
  induction s1 as [|c s1 IH]; [reflexivity|].
  cbn [String.length String.append substring]. exact IH.
Qed.

Section Splice.

Variable native : byteorder.

Lemma bufreverse_nonce (nonce_bin : list byte) :
  length nonce_bin = 4%nat -> bufreverse native nonce_bin = Ok (rev nonce_bin).
Proof.
  intros H.
  destruct nonce_bin as [|a [|b [|c [|d [|]]]]]; try discriminate H.
  unfold bufreverse. cbn [chunks4 mapM].
  rewrite bufreverse_word_4. reflexivity.
Qed.

(** What line 149 builds, for a header text of at least 160 characters. *)
Lemma solution_of_spec (original_data : string) (nonce_bin : list byte) :
  length nonce_bin = 4%nat ->
  (160 <= String.length original_data)%nat ->
  exists solution,
    solution_of native original_data nonce_bin = Ok solution
    /\ String.length solution = Nat.min (String.length original_data) 256
    /\ str_slice 152 160 solution = hex (rev nonce_bin)
    /\ forall i, (i < 152 \/ 160 <= i < 256)%nat ->
         String.get i solution = String.get i original_data.
Proof.
  intros Hn HL. unfold solution_of. rewrite bufreverse_nonce by assumption.
  cbn [bind]. eexists. split; [reflexivity|].
  set (s1 := str_slice 0 152 original_data).
  set (s2 := str_slice 160 256 original_data).
  set (nonce := hex (rev nonce_bin)).
  assert (L1 : String.length s1 = 152%nat).
  { unfold s1, str_slice. rewrite str_length_substring. lia. }
  assert (L2 : String.length s2 = (Nat.min (String.length original_data) 256 - 160)%nat).
  { unfold s2, str_slice. rewrite str_length_substring. lia. }
  assert (LN : String.length nonce = 8%nat).
  { unfold nonce. rewrite hex_length, length_rev, Hn. reflexivity. }
  split; [|split].
  - rewrite !str_length_append, L1, L2, LN. lia.
  - unfold str_slice. change (160 - 152)%nat with 8%nat.
    rewrite <- L1, substring_skip, <- LN. apply substring_prefix.
  - intros i [Hi|Hi].
    + rewrite <- append_correct1 by lia.
      unfold s1, str_slice. rewrite substring_correct1 by lia.
      f_equal. lia.
    + replace i with ((i - 152) + String.length s1)%nat at 1 by lia.
      rewrite <- append_correct2.
      replace (i - 152)%nat with ((i - 160) + String.length nonce)%nat by lia.
      rewrite <- append_correct2.
      unfold s2, str_slice. rewrite substring_correct1 by lia.
      f_equal. lia.
Qed.

End Splice.

(** C6 as the specification words it fails on a header text of 257
    characters: line 149 copies nothing beyond offset 256, so the solution
    is one character shorter than the input and has lost its last
    character. *)
Lemma splice_truncates_long_header :
  (160 <= String.length long_data)%nat
  /\ length nonce_bin_2 = 4%nat
  /\ String.length long_data = 257%nat
  /\ exists solution,
       solution_of LittleEndian long_data nonce_bin_2 = Ok solution
       /\ String.length solution = 256%nat
       /\ String.length solution <> String.length long_data
       /\ String.get 256 long_data = Some "7"%char
       /\ String.get 256 solution = None.
Proof.
  split; [vm_compute; lia|].
  split; [reflexivity|].
  split; [reflexivity|].
  eexists. split; [vm_compute; reflexivity|].
  split; [reflexivity|].
  split; [vm_compute; discriminate|].
  split; reflexivity.
Qed.

(** C6, amended: for a header text of 160 to 256 characters and a 4-byte
    nonce, the solution has the length of the input, holds the hexadecimal
    text of the byte-reversed nonce at offsets 152 to 159, and is the input
    everywhere else. *)
Theorem splice_is_local (native : byteorder) (original_data : string)
    (nonce_bin : list byte) :
  length nonce_bin = 4%nat ->
  (160 <= String.length original_data <= 256)%nat ->
  exists solution,
    solution_of native original_data nonce_bin = Ok solution
    /\ String.length solution = String.length original_data
    /\ str_slice 152 160 solution = hex (rev nonce_bin)
    /\ forall i, (i < 152 \/ 160 <= i)%nat ->
         String.get i solution = String.get i original_data.
Proof.
  intros Hn HL.
  destruct (solution_of_spec native original_data nonce_bin Hn (proj1 HL))
    as (solution & Hsol & Hlen & Hnonce & Hsame).
  exists solution. split; [exact Hsol|].
  assert (Hlen' : String.length solution = String.length original_data) by lia.
  split; [exact Hlen'|]. split; [exact Hnonce|].
  intros i Hi. destruct (Nat.lt_ge_cases i 256) as [Hlt|Hge].
  - apply Hsame. lia.
  - rewrite !str_get_beyond by lia. reflexivity.
Qed.

Lemma splice_is_local_witness :
  exists solution,
    solution_of LittleEndian regtest_data nonce_bin_2 = Ok solution
    /\ String.length solution = String.length regtest_data
    /\ str_slice 152 160 solution = hex (rev nonce_bin_2)
    /\ forall i, (i < 152 \/ 160 <= i)%nat ->
         String.get i solution = String.get i regtest_data.
Proof.
  apply (splice_is_local LittleEndian regtest_data nonce_bin_2).
  - reflexivity.
  - vm_compute. split; repeat constructor.
Defined.

(** * The work cycle *)

Example floats_are_what_they_say :
  float_of_int 1 = Ok f1 /\ float_of_int 2 = Ok f2 /\ float_of_int 3 = Ok f3
  /\ float_of_int 4 = Ok f4 /\ float_of_int 101 = Ok f101
  /\ SFdiv prec emax f4 f2 = f2 /\ halve f4 = f2 /\ double f1 = f2
  /\ valid_binary prec emax f1 = true.
Proof. vm_compute. repeat split; reflexivity. Qed.

Section Cycle.

Variable native : byteorder.
Variable sha256 : list byte -> list byte.
Variable scantime : Z.

Lemma getwork_reply_of (v : pyval) : getwork (reply_of v) = Ok v.
Proof. unfold getwork, rpc, reply_of. cbn. destruct v; reflexivity. Qed.

(** The replies after which line 156 or line 159 gives up: no work at all,
    or a dict without ['data'] or without ['target']. *)
Lemma iterate_backs_off (io : cycle_io) (st : Miner * list event) (work_v : pyval) :
  getwork (fetch_reply io) = Ok work_v ->
  work_v = PNone
  \/ (exists d, work_v = PDict d
                /\ (dict_get "data" d = None \/ dict_get "target" d = None)) ->
  iterate native sha256 scantime io st
  = (Ok tt, (fst st, snd st ++ [Sleep ERR_SLEEP])).
Proof.
  intros Hfetch Hcase. unfold iterate, bindM, lift. rewrite Hfetch.
  destruct Hcase as [-> | (d & -> & Hmiss)]; [reflexivity|].
  cbn [is_None py_contains].
  destruct (dict_get "data" d) as [dv|] eqn:Ed; cbn [negb ret]; [|reflexivity].
  destruct Hmiss as [Hm|Hm]; [discriminate Hm|].
  rewrite Hm. reflexivity.
Qed.

(** A cycle whose fetch and search succeed: the bound of line 170 is
    installed, or the exception of line 170 leaves the method. *)
Lemma iterate_searched (io : cycle_io) (st : Miner * list event)
    (d : list (string * pyval)) (data target : pyval)
    (attempts : Z) (nonce_bin : option (list byte)) :
  getwork (fetch_reply io) = Ok (PDict d) ->
  dict_get "data" d = Some data ->
  dict_get "target" d = Some target ->
  work native sha256 (max_nonce (fst st)) data target = Ok (attempts, nonce_bin) ->
  iterate native sha256 scantime io st
  = let searched := (fst st, snd st ++ [Search (max_nonce (fst st))]) in
    match raw_bound scantime attempts (float_sub (time_end io) (time_start io)) with
    | Raise e => (Raise e, searched)
    | Ok new_bound =>
        let recalibrated := (mkMiner (id (fst st)) (clamp new_bound), snd searched) in
        match nonce_bin with
        | Some nb => submit_work native (submit_reply io) data nb recalibrated
        | None => (Ok tt, recalibrated)
        end
    end.
Proof.
  intros Hfetch Hdata Htarget Hwork.
  unfold iterate, bindM, lift. rewrite Hfetch.
  cbn [is_None py_contains py_getitem]. rewrite Hdata, Htarget.
  cbn [negb ret get_max_nonce emit fst snd]. rewrite Hwork. cbn [fst snd].
  destruct (raw_bound scantime attempts _) as [new_bound|e]; [|reflexivity].
  unfold set_max_nonce, clamp. cbn [fst snd id].
  destruct (new_bound >? 0xfffffffa); cbn [fst snd id ret]; destruct nonce_bin; reflexivity.
Qed.

Lemma submit_work_keeps_miner (reply : http_exchange) (data : pyval)
    (nb : list byte) (st : Miner * list event) :
  fst (snd (submit_work native reply data nb st)) = fst st.
Proof.
  unfold submit_work. destruct data; try reflexivity.
  unfold bindM, lift, emit, ret.
  destruct (solution_of native s nb); [|reflexivity].
  cbn [fst snd]. destruct (getwork reply); reflexivity.
Qed.

End Cycle.

(** ** Fetch failures *)

(** C9: a reply body that is not JSON makes [json.loads] raise at line 62;
    nothing catches the exception, so it leaves [rpc], [iterate] and the
    endless loop of [Miner.loop]: the worker stops without pausing. *)
Theorem malformed_reply_stops_worker
    (native : byteorder) (sha256 : list byte -> list byte) (scantime : Z)
    (t0 t1 : float) (submit : http_exchange) (later : list cycle_io)
    (st : Miner * list event) :
  iterate native sha256 scantime
    (mkCycle (Body (Raise JSONDecodeError)) t0 t1 submit) st
  = (Raise JSONDecodeError, st)
  /\ loop native sha256 scantime
       (mkCycle (Body (Raise JSONDecodeError)) t0 t1 submit :: later) st
     = (Raise JSONDecodeError, st).
Proof. split; reflexivity. Qed.

(** The other fetch failures are handled as C9 says: one pause of
    [ERR_SLEEP] seconds, no search, the bound as it was. *)
Lemma fetch_failure_backs_off
    (native : byteorder) (sha256 : list byte -> list byte) (scantime : Z)
    (t0 t1 : float) (submit : http_exchange) (st : Miner * list event) :
  iterate native sha256 scantime (mkCycle NoResponse t0 t1 submit) st
  = (Ok tt, (fst st, snd st ++ [Sleep ERR_SLEEP]))
  /\ iterate native sha256 scantime (mkCycle (Body (Ok PNone)) t0 t1 submit) st
     = (Ok tt, (fst st, snd st ++ [Sleep ERR_SLEEP]))
  /\ iterate native sha256 scantime (mkCycle (Body (Ok (PDict []))) t0 t1 submit) st
     = (Ok tt, (fst st, snd st ++ [Sleep ERR_SLEEP]))
  /\ iterate native sha256 scantime (mkCycle (reply_of no_target_work) t0 t1 submit) st
     = (Ok tt, (fst st, snd st ++ [Sleep ERR_SLEEP])).
Proof. repeat split; reflexivity. Qed.

(** A connection that fails, and a result that is neither a dict, a list
    nor a string, end the worker in the same way. *)
Lemma other_fatal_replies
    (native : byteorder) (sha256 : list byte -> list byte) (scantime : Z)
    (t0 t1 : float) (submit : http_exchange) (st : Miner * list event) :
  iterate native sha256 scantime (mkCycle ConnectionFailed t0 t1 submit) st
  = (Raise ConnectionError, st)
  /\ iterate native sha256 scantime (mkCycle (reply_of (PBool false)) t0 t1 submit) st
     = (Raise TypeError, st).
Proof. split; reflexivity. Qed.

(** * Floating point: rounding commutes with scaling by two and with the sign *)

Lemma Zdigits2_nonneg (m : Z) : 0 <= Zdigits2 m.
Proof. destruct m; cbn; lia. Qed.

Lemma shr_succ (mrs : shr_record) (e n : Z) :
  shr mrs (e + 1) n = (fst (shr mrs e n), snd (shr mrs e n) + 1).
Proof. unfold shr. destruct n; cbn [fst snd]; f_equal; lia. Qed.

Lemma shr_fexp_succ (m e : Z) (l : location) :
  SpecFloat.emin prec emax <= Zdigits2 m + e - prec ->
  shr_fexp prec emax m (e + 1) l
  = (fst (shr_fexp prec emax m e l), snd (shr_fexp prec emax m e l) + 1).
Proof.
  intros H. unfold shr_fexp.
  replace (fexp prec emax (Zdigits2 m + (e + 1)) - (e + 1))
    with (fexp prec emax (Zdigits2 m + e) - e)
    by (unfold fexp; lia).
  apply shr_succ.
Qed.

Lemma shr_fexp_exponent (m e : Z) (l : location) :
  e <= snd (shr_fexp prec emax m e l).
Proof.
  unfold shr_fexp, shr.
  destruct (fexp prec emax (Zdigits2 m + e) - e); cbn [snd]; lia.
Qed.

(** Rounding a number of twice the size gives twice the rounded number,
    as long as the number is not in the subnormal range. *)
Lemma binary_round_aux_double (s : bool) (m e : Z) (l : location) :
  SpecFloat.emin prec emax + prec <= e ->
  binary_round_aux prec emax s m (e + 1) l
  = double (binary_round_aux prec emax s m e l).
Proof.
  intros H. unfold binary_round_aux.
  pose proof (Zdigits2_nonneg m).
  rewrite shr_fexp_succ by lia.
  pose proof (shr_fexp_exponent m e l) as He.
  destruct (shr_fexp prec emax m e l) as [mrs' e']. cbn [fst snd] in *.
  pose proof (Zdigits2_nonneg (round_nearest_even (shr_m mrs') (loc_of_shr_record mrs'))).
  rewrite shr_fexp_succ by lia.
  destruct (shr_fexp prec emax _ e' loc_Exact) as [mrs'' e'']. cbn [fst snd].
  destruct (shr_m mrs'') as [|p|p]; try reflexivity.
  unfold double.
  destruct (Z.leb_spec e'' (emax - prec)), (Z.leb_spec (e'' + 1) (emax - prec));
    try reflexivity; lia.
Qed.

Lemma binary_round_aux_opp (s : bool) (m e : Z) (l : location) :
  binary_round_aux prec emax (negb s) m e l
  = SFopp (binary_round_aux prec emax s m e l).
Proof.
  unfold binary_round_aux.
  destruct (shr_fexp prec emax m e l) as [mrs' e'].
  destruct (shr_fexp prec emax _ e' loc_Exact) as [mrs'' e''].
  destruct (shr_m mrs'') as [|p|p]; try reflexivity.
  destruct (e'' <=? emax - prec); reflexivity.
Qed.

(** Rounding keeps the sign it is given. *)
Lemma binary_round_aux_sign (s : bool) (m e : Z) (l : location) :
  binary_round_aux prec emax s m e l = S754_nan
  \/ sign_of (binary_round_aux prec emax s m e l) = s.
Proof.
  unfold binary_round_aux.
  destruct (shr_fexp prec emax m e l) as [mrs' e'].
  destruct (shr_fexp prec emax _ e' loc_Exact) as [mrs'' e''].
  destruct (shr_m mrs'') as [|p|p]; auto.
  destruct (e'' <=? emax - prec); auto.
Qed.

Lemma SFdiv_core_halve (m1 e1 m2 e2 : Z) :
  SpecFloat.emin prec emax + prec <= Zdigits2 m1 + e1 - (Zdigits2 m2 + e2) ->
  SFdiv_core_binary prec emax m1 e1 m2 (e2 - 1)
  = (fst (fst (SFdiv_core_binary prec emax m1 e1 m2 e2)),
     snd (fst (SFdiv_core_binary prec emax m1 e1 m2 e2)) + 1,
     snd (SFdiv_core_binary prec emax m1 e1 m2 e2)).
Proof.
  intros H. unfold SFdiv_core_binary. cbv zeta.
  set (X := Zdigits2 m1 + e1 - (Zdigits2 m2 + e2)) in *.
  replace (Zdigits2 m1 + e1 - (Zdigits2 m2 + (e2 - 1))) with (X + 1) by (unfold X; lia).
  replace (Z.min (fexp prec emax (X + 1)) (e1 - (e2 - 1)))
    with (Z.min (fexp prec emax X) (e1 - e2) + 1)
    by (unfold fexp, SpecFloat.emin, prec, emax in *; lia).
  set (E := Z.min (fexp prec emax X) (e1 - e2)).
  replace (e1 - (e2 - 1) - (E + 1)) with (e1 - e2 - E) by lia.
  destruct (Z.div_eucl _ m2) as [q r]. reflexivity.
Qed.

Lemma SFdiv_core_exponent (m1 e1 m2 e2 : Z) :
  snd (fst (SFdiv_core_binary prec emax m1 e1 m2 e2))
  = Z.min (fexp prec emax (Zdigits2 m1 + e1 - (Zdigits2 m2 + e2))) (e1 - e2).
Proof.
  unfold SFdiv_core_binary. cbv zeta.
  destruct (Z.div_eucl _ m2) as [q r]. reflexivity.
Qed.

(** Dividing by half the divisor doubles the quotient. *)
Lemma SFdiv_halve (x : float) (s : bool) (m : positive) (e : Z) :
  match x with
  | S754_finite _ mx _ => Zpos (digits2_pos mx) <= prec
  | _ => True
  end ->
  SpecFloat.emin prec emax + 2 * prec <= magnitude x - magnitude (S754_finite s m e)
  \/ (forall sx mx ex, x <> S754_finite sx mx ex) ->
  SFdiv prec emax x (halve (S754_finite s m e))
  = double (SFdiv prec emax x (S754_finite s m e)).
Proof.
  intros Hx Hmag. destruct x as [sx|sx| |sx mx ex]; try reflexivity.
  destruct Hmag as [Hmag|Hmag]; [|now elim (Hmag sx mx ex)].
  cbn [magnitude] in Hmag. cbn [halve SFdiv].
  assert (Hd : 1 <= Zpos (digits2_pos m)) by lia.
  rewrite SFdiv_core_halve
    by (cbn [Zdigits2]; unfold SpecFloat.emin, prec, emax in *; lia).
  pose proof (SFdiv_core_exponent (Zpos mx) ex (Zpos m) e) as Hez.
  destruct (SFdiv_core_binary prec emax (Zpos mx) ex (Zpos m) e) as [[q ez] l].
  cbn [fst snd] in *.
  apply binary_round_aux_double.
  rewrite Hez. cbn [Zdigits2].
  unfold fexp, SpecFloat.emin, prec, emax in *. lia.
Qed.

Lemma xorb_negb_r_eq (a b : bool) : xorb a (negb b) = negb (xorb a b).
Proof. destruct a, b; reflexivity. Qed.

Lemma SFdiv_opp (x : float) (s : bool) (m : positive) (e : Z) :
  SFdiv prec emax x (S754_finite (negb s) m e)
  = SFopp (SFdiv prec emax x (S754_finite s m e)).
Proof.
  destruct x as [sx|sx| |sx mx ex]; cbn [SFdiv SFopp];
    rewrite ?xorb_negb_r_eq; try reflexivity.
  destruct (SFdiv_core_binary prec emax (Zpos mx) ex (Zpos m) e) as [[q ez] l].
  apply binary_round_aux_opp.
Qed.

(** * Recalibration *)

Lemma int_of_float_nonneg (q : float) (b : Z) :
  sign_of q = false -> int_of_float q = Ok b -> 0 <= b.
Proof.
  destruct q as [s|s| |s m e]; cbn [sign_of int_of_float]; intros Hs H;
    try discriminate H; injection H as <-; [lia|].
  subst s. cbn [cond_Zopp]. apply Z.shiftl_nonneg. lia.
Qed.

Lemma int_of_float_opp (q : float) (b : Z) :
  int_of_float q = Ok b -> int_of_float (SFopp q) = Ok (- b).
Proof.
  destruct q as [s|s| |s m e]; cbn [SFopp int_of_float]; intros H;
    try discriminate H; injection H as <-; [reflexivity|].
  f_equal. destruct s; cbn [negb cond_Zopp]; lia.
Qed.

(** Truncation of the double of a number: twice its truncation, or one
    more. *)
Lemma int_of_float_double (q : float) (b : Z) :
  sign_of q = false ->
  int_of_float q = Ok b ->
  b < 2 ^ 971 ->
  int_of_float (double q) = Ok (2 * b) \/ int_of_float (double q) = Ok (2 * b + 1).
Proof.
  destruct q as [s|s| |s m e]; cbn [sign_of int_of_float double]; intros Hs H Hb;
    try discriminate H; injection H as <-; [now left|].
  subst s. cbn [cond_Zopp] in *.
  assert (He : e <= 970).
  { destruct (Z.le_gt_cases e 970) as [L|G]; [exact L|exfalso].
    rewrite Z.shiftl_mul_pow2 in Hb by lia.
    assert (2 ^ 971 <= 2 ^ e) by (apply Z.pow_le_mono_r; lia).
    nia. }
  change (emax - prec) with 971.
  destruct (Z.leb_spec (e + 1) 971); [|lia].
  cbn [int_of_float cond_Zopp].
  destruct (Z.le_gt_cases 0 e) as [Hpos|Hneg].
  - left. f_equal. rewrite !Z.shiftl_mul_pow2 by lia.
    rewrite Z.pow_add_r by lia. change (2 ^ 1) with 2. lia.
  - rewrite !Z.shiftl_div_pow2 by lia.
    replace (- e) with (- (e + 1) + 1) by lia.
    rewrite Z.pow_add_r by lia. change (2 ^ 1) with 2.
    set (P := 2 ^ (- (e + 1))).
    assert (0 < P) by (apply Z.pow_pos_nonneg; lia).
    rewrite <- Z.div_div by lia.
    pose proof (Z.div_mod (Zpos m / P) 2 ltac:(lia)).
    pose proof (Z.mod_pos_bound (Zpos m / P) 2 ltac:(lia)).
    assert (C : (Zpos m / P) mod 2 = 0 \/ (Zpos m / P) mod 2 = 1) by lia.
    destruct C; [left | right]; f_equal; lia.
Qed.

Lemma float_of_int_sign (n : Z) (x : float) :
  0 <= n -> float_of_int n = Ok x -> sign_of x = false.
Proof.
  intros Hn. unfold float_of_int, binary_normalize.
  destruct n as [|p|p]; [intros H; now injection H as <- | | lia].
  unfold binary_round.
  destruct (shl_align p 0 _) as [mz ez].
  destruct (binary_round_aux_sign false (Zpos mz) ez loc_Exact) as [E|E].
  - rewrite E. intros H. now injection H as <-.
  - destruct (binary_round_aux prec emax false (Zpos mz) ez loc_Exact);
      intros H; try discriminate H; now injection H as <-.
Qed.

Lemma SFdiv_sign (x : float) (m : positive) (e : Z) :
  sign_of x = false -> sign_of (SFdiv prec emax x (S754_finite false m e)) = false.
Proof.
  destruct x as [sx|sx| |sx mx ex]; cbn [sign_of SFdiv]; intros Hs;
    try (rewrite Hs); try reflexivity.
  destruct (SFdiv_core_binary prec emax (Zpos mx) ex (Zpos m) e) as [[q ez] l].
  destruct (binary_round_aux_sign (xorb false false) q ez l) as [E|E];
    [now rewrite E | exact E].
Qed.

Lemma valid_binary_digits (s : bool) (m : positive) (e : Z) :
  valid_binary prec emax (S754_finite s m e) = true -> Zpos (digits2_pos m) <= prec.
Proof.
  cbn [valid_binary]. unfold bounded, canonical_mantissa.
  intros H. apply andb_prop in H as [H _]. apply Z.eqb_eq in H.
  unfold fexp in H. lia.
Qed.

Section Recalibration.

Variable scantime : Z.

Lemma raw_bound_finite (attempts : Z) (x : float) (s : bool) (m : positive) (e : Z) :
  float_of_int (attempts * scantime) = Ok x ->
  raw_bound scantime attempts (S754_finite s m e)
  = int_of_float (SFdiv prec emax x (S754_finite s m e)).
Proof. intros H. unfold raw_bound, truediv_int_float. now rewrite H. Qed.

Lemma raw_bound_zero (attempts : Z) (x t : float) :
  float_of_int (attempts * scantime) = Ok x ->
  float_is_zero t = true ->
  raw_bound scantime attempts t = Raise ZeroDivisionError.
Proof. intros H Hz. unfold raw_bound, truediv_int_float. now rewrite H, Hz. Qed.

(** A negative duration gives the negated bound of the positive one. *)
Lemma raw_bound_negative (attempts : Z) (x : float) (m : positive) (e b : Z) :
  float_of_int (attempts * scantime) = Ok x ->
  raw_bound scantime attempts (S754_finite false m e) = Ok b ->
  raw_bound scantime attempts (S754_finite true m e) = Ok (- b).
Proof.
  intros Hx. rewrite !(raw_bound_finite attempts x) by assumption.
  change true with (negb false). rewrite SFdiv_opp.
  apply int_of_float_opp.
Qed.

Lemma raw_bound_nonneg (attempts : Z) (x : float) (m : positive) (e b : Z) :
  0 <= attempts * scantime ->
  float_of_int (attempts * scantime) = Ok x ->
  raw_bound scantime attempts (S754_finite false m e) = Ok b ->
  0 <= b.
Proof.
  intros Hn Hx. rewrite (raw_bound_finite attempts x) by assumption.
  apply int_of_float_nonneg, SFdiv_sign.
  now apply (float_of_int_sign (attempts * scantime)).
Qed.

End Recalibration.

(** ** Halving the elapsed time *)

(** C7 as the specification words it fails for 999999 attempts and a scan
    time of 30 seconds: 4.0 seconds give the bound 7499992 and 2.0 seconds
    give 14999985, one more than twice as much. *)
Lemma halving_does_not_double :
  halve f4 = f2
  /\ raw_bound 30 999999 f4 = Ok 7499992
  /\ raw_bound 30 999999 (halve f4) = Ok 14999985
  /\ 14999985 <> 2 * 7499992.
Proof. vm_compute. repeat split; try reflexivity. discriminate. Qed.

(** C7, amended: for a positive elapsed time t, with attempts * scantime
    positive and the quotient neither below 2^-968 nor a bound of 2^971 or
    more, the bound computed from t/2 before the clamp is twice the bound
    computed from t, or twice that bound plus one. *)
Theorem halving_elapsed_doubles_bound
    (scantime attempts : Z) (mx : positive) (ex : Z) (mt : positive) (et b : Z) :
  float_of_int (attempts * scantime) = Ok (S754_finite false mx ex) ->
  valid_binary prec emax (S754_finite false mx ex) = true ->
  - 968 <= magnitude (S754_finite false mx ex) - magnitude (S754_finite false mt et) ->
  raw_bound scantime attempts (S754_finite false mt et) = Ok b ->
  b < 2 ^ 971 ->
  raw_bound scantime attempts (halve (S754_finite false mt et)) = Ok (2 * b)
  \/ raw_bound scantime attempts (halve (S754_finite false mt et)) = Ok (2 * b + 1).
Proof.
  intros Hx Hvalid Hmag Hb Hsmall.
  rewrite (raw_bound_finite scantime attempts _ _ _ _ Hx) in Hb.
  cbn [halve]. rewrite (raw_bound_finite scantime attempts _ _ _ _ Hx).
  change (S754_finite false mt (et - 1)) with (halve (S754_finite false mt et)).
  rewrite SFdiv_halve.
  - apply int_of_float_double; [|exact Hb|exact Hsmall].
    now apply SFdiv_sign.
  - now apply valid_binary_digits in Hvalid.
  - left. unfold SpecFloat.emin, prec, emax. lia.
Qed.

Lemma halving_elapsed_doubles_bound_witness :
  raw_bound 30 999999 (halve f4) = Ok (2 * 7499992)
  \/ raw_bound 30 999999 (halve f4) = Ok (2 * 7499992 + 1).
Proof.
  apply (halving_elapsed_doubles_bound 30 999999 8053055626936320 (-28)
           4503599627370496 (-50) 7499992).
  - vm_compute. reflexivity.
  - vm_compute. reflexivity.
  - vm_compute. discriminate.
  - vm_compute. reflexivity.
  - vm_compute. reflexivity.
Defined.

(** ** A bound of zero is reachable *)

(** Three attempts in a hundred seconds with a scan time of 30 leave the
    worker with [int(90 / 100.0) = 0] as its bound; its next call of
    [work] is the one of C2 and ends the worker. *)
Example slow_cycle_then_bound_zero :
  iterate LittleEndian SHA256.hash 30 clock_slow worker3
  = (Ok tt, (mkMiner 0 0, [Search 3]))
  /\ loop LittleEndian SHA256.hash 30 [clock_slow; clock_slow] worker3
     = (Raise UnboundLocalError, (mkMiner 0 0, [Search 3; Search 0])).
Proof. split; vm_compute; reflexivity. Qed.

(** ** Elapsed time that is zero or negative *)

(** C5 as the specification words it fails on a cycle whose clock steps
    back by one second: with three attempts and a scan time of 30 seconds
    the worker leaves the cycle with the bound -90 instead of its prior 3,
    and its next search raises at line 144.  On a clock that does not move
    line 170 divides by zero and the exception ends the worker. *)
Lemma negative_elapsed_replaces_bound :
  float_sub (time_end clock_back) (time_start clock_back)
  = S754_finite true 4503599627370496 (-52)
  /\ iterate LittleEndian SHA256.hash 30 clock_back worker3
     = (Ok tt, (mkMiner 0 (-90), [Search 3]))
  /\ max_nonce (fst (snd (iterate LittleEndian SHA256.hash 30 clock_back worker3)))
     <> max_nonce (fst worker3)
  /\ loop LittleEndian SHA256.hash 30 [clock_back; clock_back] worker3
     = (Raise UnboundLocalError, (mkMiner 0 (-90), [Search 3; Search (-90)]))
  /\ float_is_zero (float_sub (time_end clock_still) (time_start clock_still)) = true
  /\ iterate LittleEndian SHA256.hash 30 clock_still worker3
     = (Raise ZeroDivisionError, (mkMiner 0 3, [Search 3])).
Proof.
  split; [vm_compute; reflexivity|].
  split; [vm_compute; reflexivity|].
  split; [vm_compute; discriminate|].
  split; [vm_compute; reflexivity|].
  split; vm_compute; reflexivity.
Qed.

(** C5, amended: line 170 has no guard.  In a cycle whose fetch and search
    succeeded, an elapsed time of zero makes the division raise
    [ZeroDivisionError], which leaves [iterate] with the bound as it was;
    a negative elapsed time is recalibrated like any other: the worker's
    bound becomes the negation of the bound the same positive duration
    gives, which is zero or negative. *)
Theorem nonpositive_elapsed_is_not_guarded
    (native : byteorder) (sha256 : list byte -> list byte) (scantime : Z)
    (io : cycle_io) (st : Miner * list event)
    (d : list (string * pyval)) (data target : pyval)
    (attempts : Z) (nonce_bin : option (list byte)) (x : float) :
  getwork (fetch_reply io) = Ok (PDict d) ->
  dict_get "data" d = Some data ->
  dict_get "target" d = Some target ->
  work native sha256 (max_nonce (fst st)) data target = Ok (attempts, nonce_bin) ->
  0 <= attempts * scantime ->
  float_of_int (attempts * scantime) = Ok x ->
  (float_is_zero (float_sub (time_end io) (time_start io)) = true ->
   iterate native sha256 scantime io st
   = (Raise ZeroDivisionError, (fst st, snd st ++ [Search (max_nonce (fst st))])))
  /\ (forall m e b,
        float_sub (time_end io) (time_start io) = S754_finite true m e ->
        raw_bound scantime attempts (S754_finite false m e) = Ok b ->
        max_nonce (fst (snd (iterate native sha256 scantime io st))) = - b
        /\ - b <= 0).
Proof.
  intros Hfetch Hdata Htarget Hwork Hn Hx.
  rewrite (iterate_searched native sha256 scantime io st d data target
             attempts nonce_bin Hfetch Hdata Htarget Hwork).
  cbv zeta. split.
  - intros Hz. now rewrite (raw_bound_zero scantime attempts x _ Hx Hz).
  - intros m e b Hdiff Hb. rewrite Hdiff.
    pose proof (raw_bound_nonneg scantime attempts x m e b Hn Hx Hb) as Hb0.
    rewrite (raw_bound_negative scantime attempts x m e b Hx Hb).
    split; [|lia].
    assert (Hc : clamp (- b) = - b).
    { unfold clamp. destruct (Z.gtb_spec (- b) 0xfffffffa); [lia | reflexivity]. }
    rewrite Hc.
    destruct nonce_bin as [nb|]; [|reflexivity].
    now rewrite submit_work_keeps_miner.
Qed.

Lemma nonpositive_elapsed_is_not_guarded_witness :
  (float_is_zero (float_sub (time_end clock_back) (time_start clock_back)) = true ->
   iterate LittleEndian SHA256.hash 30 clock_back worker3
   = (Raise ZeroDivisionError,
      (fst worker3, snd worker3 ++ [Search (max_nonce (fst worker3))])))
  /\ (forall m e b,
        float_sub (time_end clock_back) (time_start clock_back) = S754_finite true m e ->
        raw_bound 30 3 (S754_finite false m e) = Ok b ->
        max_nonce (fst (snd (iterate LittleEndian SHA256.hash 30 clock_back worker3)))
        = - b
        /\ - b <= 0).
Proof.
  eapply (nonpositive_elapsed_is_not_guarded LittleEndian SHA256.hash 30
            clock_back worker3 _ (PStr regtest_data) (PStr zero_target) 3 None).
  - apply getwork_reply_of.
  - reflexivity.
  - reflexivity.
  - vm_compute. reflexivity.
  - lia.
  - vm_compute. reflexivity.
Defined.

(** * More on 32-bit words *)

Lemma byte_to_of_Z (z : Z) : 0 <= z < 256 -> byte_to_Z (byte_of_Z z) = z.
Proof.
  intros H. unfold byte_to_Z, byte_of_Z. rewrite Z.mod_small by lia.
  destruct (Byte.of_N (Z.to_N z)) as [b|] eqn:E.
  - apply Byte.to_of_N in E. lia.
  - apply Byte.of_N_None_iff in E. lia.
Qed.

Lemma land_255_range (y : Z) : 0 <= Z.land y 255 < 256.
Proof.
  change 255 with (Z.ones 8). rewrite Z.land_ones by lia.
  apply Z.mod_pos_bound. lia.
Qed.

Lemma testbit_above_32 (x n : Z) : 0 <= x <= 0xffffffff -> 32 <= n -> Z.testbit x n = false.
Proof.
  intros Hx Hn. destruct (Z.eq_dec x 0) as [->|Hz]; [apply Z.testbit_0_l|].
  apply Z.bits_above_log2; [lia|].
  assert (Z.log2 x < 32) by (apply Z.log2_lt_pow2; lia). lia.
Qed.

(** [struct.unpack] undoes [struct.pack]. *)
Lemma le_to_of_Z4 (x : Z) : 0 <= x <= 0xffffffff -> le_to_Z (le_of_Z4 x) = x.
Proof.
  intros Hx. apply Z.bits_inj'. intros n Hn. unfold le_of_Z4.
  rewrite testbit_le4.
  rewrite !byte_to_of_Z by apply land_255_range.
  destruct (Z.ltb_spec n 8); [|destruct (Z.ltb_spec n 16); [|destruct (Z.ltb_spec n 24)]].
  - rewrite Z.land_spec, testbit_255 by lia. destruct (Z.ltb_spec n 8); [|lia].
    apply andb_true_r.
  - rewrite Z.land_spec, Z.shiftr_spec, testbit_255 by lia.
    destruct (Z.ltb_spec (n - 8) 8); [|lia].
    rewrite andb_true_r. f_equal. lia.
  - rewrite Z.land_spec, Z.shiftr_spec, testbit_255 by lia.
    destruct (Z.ltb_spec (n - 16) 8); [|lia].
    rewrite andb_true_r. f_equal. lia.
  - rewrite Z.land_spec, Z.shiftr_spec, testbit_255 by lia.
    destruct (Z.ltb_spec (n - 24) 8).
    + rewrite andb_true_r. f_equal. lia.
    + rewrite andb_false_r. symmetry. apply testbit_above_32; [assumption|lia].
Qed.

Lemma le_of_to_Z4 (a b c d : byte) : le_of_Z4 (le_to_Z [a; b; c; d]) = [a; b; c; d].
Proof.
  unfold le_of_Z4.
  rewrite <- (Z.shiftr_0_r (le_to_Z _)) at 1.
  f_equal; [|f_equal; [|f_equal; [|f_equal]]];
    (apply byte_eq_bits; [lia|]); intros n Hn;
    rewrite testbit_le4; cases_cmp; try lia; f_equal; lia.
Qed.

Lemma le_of_Z4_shape (x : Z) : exists a b c d, le_of_Z4 x = [a; b; c; d].
Proof. unfold le_of_Z4. eauto. Qed.

Lemma bytereverse_as_bytes (x : Z) :
  0 <= x <= 0xffffffff -> le_of_Z4 (bytereverse x) = rev (le_of_Z4 x).
Proof.
  intros Hx. destruct (le_of_Z4_shape x) as (a & b & c & d & E).
  rewrite <- (le_to_of_Z4 x Hx) at 1. rewrite E.
  apply le_of_bytereverse.
Qed.

(** X1: [bytereverse] is an involution on 32-bit words. *)
Theorem bytereverse_involutive (x : Z) :
  0 <= x <= 0xffffffff -> bytereverse (bytereverse x) = x.
Proof.
  intros Hx.
  pose proof (bytereverse_range x) as R1.
  pose proof (bytereverse_range (bytereverse x)) as R2.
  rewrite <- (le_to_of_Z4 (bytereverse (bytereverse x)) R2).
  rewrite bytereverse_as_bytes by assumption.
  rewrite bytereverse_as_bytes by assumption.
  rewrite rev_involutive. now apply le_to_of_Z4.
Qed.

Lemma bytereverse_involutive_witness :
  0 <= 0x12345678 <= 0xffffffff
  /\ bytereverse 0x12345678 = 0x78563412
  /\ bytereverse (bytereverse 0x12345678) = 0x12345678.
Proof.
  split; [lia|]. split; [reflexivity|].
  apply (bytereverse_involutive 0x12345678). lia.
Defined.

(** X2: packing the byte-reversed word gives the bytes of the word in the
    opposite order, in either byte order of [struct]. *)
Theorem bytereverse_reverses_packed_bytes (order : byteorder) (x : Z) :
  0 <= x <= 0xffffffff ->
  pack_I order (bytereverse x) = (b <- pack_I order x ;; Ok (rev b)).
Proof.
  intros Hx. pose proof (bytereverse_range x) as R. unfold pack_I.
  destruct (Z.leb_spec 0 x); [|lia].
  destruct (Z.leb_spec x 0xffffffff); [|lia].
  destruct (Z.leb_spec 0 (bytereverse x)); [|lia].
  destruct (Z.leb_spec (bytereverse x) 0xffffffff); [|lia].
  cbn [andb bind]. rewrite bytereverse_as_bytes by assumption.
  destruct order; reflexivity.
Qed.

Lemma bytereverse_reverses_packed_bytes_witness :
  0 <= 0x12345678 <= 0xffffffff
  /\ pack_I BigEndian (bytereverse 0x12345678)
     = (b <- pack_I BigEndian 0x12345678 ;; Ok (rev b)).
Proof.
  split; [lia|].
  apply (bytereverse_reverses_packed_bytes BigEndian 0x12345678). lia.
Defined.

(** X3: whatever the size or sign of its argument, [bytereverse] returns a
    32-bit value, [uint32] leaves a 32-bit value alone, and [uint32] is the
    residue modulo 2^32. *)
Theorem bytereverse_is_32_bit (x : Z) :
  0 <= bytereverse x <= 0xffffffff
  /\ uint32 (bytereverse x) = bytereverse x
  /\ uint32 x = x mod 2 ^ 32.
Proof.
  pose proof (bytereverse_range x) as R.
  assert (U : forall y, uint32 y = y mod 2 ^ 32).
  { intros y. unfold uint32. change 0xffffffff with (Z.ones 32).
    apply Z.land_ones. lia. }
  split; [exact R|]. split; [|apply U].
  rewrite U. apply Z.mod_small. lia.
Qed.

(** * More on the byte-order transforms *)

Lemma bufreverse_cases (native : byteorder) (buf : list byte) :
  bufreverse native buf
  = if (length buf mod 4 =? 0)%nat
    then Ok (concat (map (@rev byte) (chunks4 buf)))
    else Raise StructError.
Proof.
  destruct (Nat.eqb_spec (length buf mod 4) 0).
  - now apply bufreverse_aligned.
  - now apply bufreverse_unaligned.
Qed.

(** X4: the result of [bufreverse] does not depend on the byte order of
    the host, although it unpacks and packs with ['@I']. *)
Theorem bufreverse_host_independent (buf : list byte) :
  bufreverse LittleEndian buf = bufreverse BigEndian buf.
Proof. now rewrite !bufreverse_cases. Qed.

(** X5: when [bufreverse] returns, its result has the length of its
    argument. *)
Theorem bufreverse_preserves_length (native : byteorder) (buf out : list byte) :
  bufreverse native buf = Ok out -> length out = length buf.
Proof.
  rewrite bufreverse_cases.
  destruct (Nat.eqb_spec (length buf mod 4) 0) as [A|A]; intros H; [|discriminate H].
  injection H as <-. now apply swab_length.
Qed.

Lemma bufreverse_preserves_length_witness :
  bufreverse LittleEndian eight_bytes = Ok [x04; x03; x02; x01; x08; x07; x06; x05]
  /\ length [x04; x03; x02; x01; x08; x07; x06; x05] = length eight_bytes.
Proof.
  split; [reflexivity|].
  apply (bufreverse_preserves_length LittleEndian eight_bytes). reflexivity.
Defined.

Lemma swab_app (x y : list byte) :
  (length x mod 4 = 0)%nat ->
  concat (map (@rev byte) (chunks4 (x ++ y)))
  = concat (map (@rev byte) (chunks4 x)) ++ concat (map (@rev byte) (chunks4 y)).
Proof.
  intros H. now rewrite chunks4_app, map_app, concat_app by assumption.
Qed.

Lemma swab_wordreverse (buf : list byte) :
  (length buf mod 4 = 0)%nat ->
  concat (map (@rev byte) (chunks4 (wordreverse buf))) = rev buf.
Proof.
  induction buf as [| a | a b | a b c | a b c d rest IH] using list_ind4;
    intros H; try discriminate H; try reflexivity.
  rewrite length_mod4_step in H.
  rewrite wordreverse_step, swab_app by (now rewrite wordreverse_length).
  rewrite IH by assumption.
  cbn [rev chunks4 map concat app]. rewrite <- !app_assoc. reflexivity.
Qed.

(** X6: on a buffer of whole words the two transforms commute: reversing
    the words and then the bytes of each word is the same as the other way
    round. *)
Theorem transforms_commute (native : byteorder) (buf : list byte) :
  (length buf mod 4 = 0)%nat ->
  bufreverse native (wordreverse buf)
  = (b <- bufreverse native buf ;; Ok (wordreverse b)).
Proof.
  intros H.
  rewrite (bufreverse_aligned native buf H). cbn [bind].
  rewrite bufreverse_aligned by (now rewrite wordreverse_length).
  now rewrite swab_wordreverse, wordreverse_swab.
Qed.

Lemma transforms_commute_witness :
  (length eight_bytes mod 4 = 0)%nat
  /\ bufreverse LittleEndian (wordreverse eight_bytes)
     = (b <- bufreverse LittleEndian eight_bytes ;; Ok (wordreverse b)).
Proof.
  split; [reflexivity|].
  apply (transforms_commute LittleEndian eight_bytes). reflexivity.
Defined.

(** * More on hexadecimal text *)

Lemma hexval_not_space (c : ascii) (v : Z) : hexval c = Some v -> is_space c = false.
Proof.
  unfold hexval, is_space. set (n := Z.of_N (N_of_ascii c)).
  destruct (Z.leb_spec 48 n), (Z.leb_spec n 57), (Z.leb_spec 97 n), (Z.leb_spec n 102),
    (Z.leb_spec 65 n), (Z.leb_spec n 70); cbn [andb]; intros Hv; try discriminate Hv;
    destruct (Z.eqb_spec n 32), (Z.leb_spec 9 n), (Z.leb_spec n 13);
    cbn [andb orb]; try reflexivity; lia.
Qed.

Lemma fromhex_pair (c c' : ascii) (rest : string) (top bot : Z) :
  hexval c = Some top -> hexval c' = Some bot ->
  fromhex (String c (String c' rest))
  = (tl <- fromhex rest ;; Ok (byte_of_Z (top * 16 + bot) :: tl)).
Proof.
  intros Hc Hc'. cbn [fromhex].
  now rewrite (hexval_not_space c top Hc), Hc, Hc'.
Qed.

Lemma fromhex_hex_bytes (bs : list byte) : fromhex (hex bs) = Ok bs.
Proof.
  induction bs as [|b tl IH]; [reflexivity|].
  destruct (byte_nibbles b) as (Hhi & Hlo & Hsum).
  cbn [hex].
  rewrite (fromhex_pair _ _ _ _ _ (hexval_hexdigit _ Hhi) (hexval_hexdigit _ Hlo)).
  rewrite IH. cbn [bind]. rewrite Hsum, byte_of_to_Z. reflexivity.
Qed.

(** [bytes.fromhex] undoes [bytes.hex]. *)
Lemma fromhex_hex (bs : list byte) :
  fromhex (hex bs) = Ok bs /\ String.length (hex bs) = (2 * length bs)%nat.
Proof. split; [apply fromhex_hex_bytes | apply hex_length]. Qed.

Lemma string_ind2 (P : string -> Prop) :
  P EmptyString ->
  (forall c, P (String c EmptyString)) ->
  (forall c c' rest, P rest -> P (String c (String c' rest))) ->
  forall s, P s.
Proof.
  intros H0 H1 H2. fix IH 1.
  intros [|c [|c' rest]]; [apply H0 | apply H1 | apply H2, IH].
Qed.

(** On a string of hexadecimal digits [bytes.fromhex] returns one byte
    for every two digits when their number is even, and raises
    [ValueError] when it is odd. *)
Lemma fromhex_digit_string (s : string) :
  all_hexdigits s = true ->
  match fromhex s with
  | Ok bs => Nat.even (String.length s) = true
             /\ (2 * length bs)%nat = String.length s
  | Raise e => e = ValueError /\ Nat.odd (String.length s) = true
  end.
Proof.
  induction s as [| c | c c' rest IH] using string_ind2; intros H.
  - split; reflexivity.
  - cbn [all_hexdigits] in H. destruct (hexval c) as [v|] eqn:E; [|discriminate H].
    cbn [fromhex]. rewrite (hexval_not_space c v E), E. split; reflexivity.
  - cbn [all_hexdigits] in H.
    destruct (hexval c) as [v|] eqn:E; [|discriminate H].
    destruct (hexval c') as [v'|] eqn:E'; [|discriminate H].
    rewrite (fromhex_pair c c' rest v v' E E').
    specialize (IH H). destruct (fromhex rest) as [tl|e]; cbn [bind].
    + destruct IH as [Ev Len]. split.
      * exact Ev.
      * cbn [length String.length]. lia.
    + exact IH.
Qed.

Lemma fromhex_digit_string_witness :
  all_hexdigits "0aF" = true
  /\ match fromhex "0aF" with
     | Ok bs => Nat.even (String.length "0aF") = true
                /\ (2 * length bs)%nat = String.length "0aF"
     | Raise e => e = ValueError /\ Nat.odd (String.length "0aF") = true
     end.
Proof.
  split; [reflexivity|].
  apply (fromhex_digit_string "0aF"). reflexivity.
Defined.

(** * More on the search *)

Lemma le_to_Z_bound (bs : list byte) : le_to_Z bs < 2 ^ (8 * Z.of_nat (length bs)).
Proof.
  induction bs as [|b tl IH]; [reflexivity|].
  rewrite le_to_Z_cons. cbn [length]. rewrite Nat2Z.inj_succ.
  replace (8 * Z.succ (Z.of_nat (length tl))) with (8 + 8 * Z.of_nat (length tl)) by lia.
  rewrite Z.pow_add_r by lia. change (2 ^ 8) with 256.
  pose proof (byte_to_Z_range b). lia.
Qed.

Lemma bytes_eqb_eq (x y : list byte) : bytes_eqb x y = true -> x = y.
Proof. unfold bytes_eqb. destruct (list_eq_dec _ x y); [trivial | discriminate]. Qed.

(** The digests line 129 lets through are the 32-byte digests with a
    value below 2^224. *)
Lemma zero_word_small_value (d : list byte) :
  length d = 32%nat -> ends_in_zero_word d = true -> le_to_Z d < 2 ^ 224.
Proof.
  intros Hlen H. apply bytes_eqb_eq in H. unfold bytes_suffix in H.
  rewrite Hlen in H. change (32 - 4)%nat with 28%nat in H.
  rewrite <- (firstn_skipn 28 d), H, le_to_Z_app.
  pose proof (le_to_Z_bound (firstn 28 d)) as B.
  rewrite length_firstn, Hlen in B |- *.
  change (Init.Nat.min 28 32) with 28%nat in *.
  change (le_to_Z [x00; x00; x00; x00]) with 0.
  change (8 * Z.of_nat 28) with 224 in *. lia.
Qed.

Lemma first_true (q : Z -> bool) (bound : Z) :
  (forall m, 0 <= m < bound -> q m = false)
  \/ (exists n, 0 <= n < bound /\ q n = true /\ forall m, 0 <= m < n -> q m = false).
Proof.
  destruct (Z.le_gt_cases bound 0) as [Hle|Hgt]; [left; intros m Hm; lia|].
  assert (Hb : 0 <= bound) by lia. clear Hgt. revert bound Hb.
  apply natlike_ind.
  - left. intros m Hm. lia.
  - intros b Hb [Hnone|(n & Hn & Hq & Hfirst)].
    + destruct (q b) eqn:Eb.
      * right. exists b. repeat split; try lia; assumption.
      * left. intros m Hm. destruct (Z.eq_dec m b) as [->|Hne]; [exact Eb|].
        apply Hnone. lia.
    + right. exists n. repeat split; try lia; assumption.
Qed.

Section SearchOutcome.

Variable native : byteorder.
Variable sha256 : list byte -> list byte.
Hypothesis sha256_len : forall msg, length (sha256 msg) = 32%nat.

Lemma try_nonce_qualifies (blk_hdr : list byte) (target n : Z) :
  0 <= n <= 0xffffffff ->
  try_nonce native sha256 (update sha256_new blk_hdr) target n
  = Ok (if qualifies sha256 blk_hdr target n then Some (le_of_Z4 n) else None).
Proof. intros H. unfold qualifies. now apply try_nonce_spec. Qed.

Lemma try_nonce_overflow (h : sha256_obj) (target n : Z) :
  0xffffffff < n -> try_nonce native sha256 h target n = Raise StructError.
Proof.
  intros H. unfold try_nonce, pack_I.
  destruct (Z.leb_spec n 0xffffffff); [lia|].
  now rewrite andb_false_r.
Qed.

(** Every way [Miner.work] can end once header and target are read. *)
Lemma work_outcome (bound : Z) (datastr targetstr : pyval)
    (blk_hdr : list byte) (target : Z) :
  block_header native datastr = Ok blk_hdr ->
  parse_target targetstr = Ok target ->
  (exists n, 0 <= n < bound /\ n <= 0xffffffff
             /\ qualifies sha256 blk_hdr target n = true
             /\ (forall m, 0 <= m < n -> qualifies sha256 blk_hdr target m = false)
             /\ work native sha256 bound datastr targetstr
                = Ok (n + 1, Some (le_of_Z4 n)))
  \/ ((forall m, 0 <= m < Z.min bound 0x100000000 ->
         qualifies sha256 blk_hdr target m = false)
      /\ work native sha256 bound datastr targetstr
         = if bound <=? 0 then Raise UnboundLocalError
           else if bound <=? 0x100000000 then Ok (bound, None)
           else Raise StructError).
Proof.
  intros Hhdr Htgt. unfold work. rewrite Hhdr, Htgt. cbn [bind].
  remember 0x100000000 as c eqn:Hc.
  destruct (first_true (qualifies sha256 blk_hdr target) (Z.min bound c))
    as [Hnone|(n & Hn & Hq & Hfirst)].
  - right. split; [exact Hnone|].
    destruct (Z.leb_spec bound c) as [Hsmall|Hbig].
    + rewrite work_loop_exhausted; [reflexivity|].
      intros m Hm. rewrite try_nonce_qualifies by lia.
      now rewrite Hnone by lia.
    + destruct (Z.leb_spec bound 0); [lia|].
      destruct (range_split bound c ltac:(lia)) as [rest ->].
      rewrite work_loop_skip.
      * cbn [work_loop]. now rewrite try_nonce_overflow by lia.
      * intros m Hm. rewrite In_range in Hm.
        rewrite try_nonce_qualifies by lia. now rewrite Hnone by lia.
  - left. exists n. repeat split; try lia; try assumption.
    apply work_loop_found; [lia| |].
    + intros m Hm. rewrite try_nonce_qualifies by lia. now rewrite Hfirst.
    + rewrite try_nonce_qualifies by lia. now rewrite Hq.
Qed.

Lemma try_nonce_target_cap (h : sha256_obj) (t1 t2 n : Z) :
  2 ^ 224 <= t1 -> 2 ^ 224 <= t2 ->
  try_nonce native sha256 h t1 n = try_nonce native sha256 h t2 n.
Proof.
  intros H1 H2. unfold try_nonce.
  destruct (pack_I LittleEndian n) as [nonce_bin|e]; [|reflexivity]. cbn [bind].
  set (d := digest sha256 (update sha256_new (digest sha256 (update (copy h) nonce_bin)))).
  assert (Hd : length d = 32%nat) by apply sha256_len.
  fold (ends_in_zero_word d).
  destruct (ends_in_zero_word d) eqn:E; cbn [negb]; [|reflexivity].
  pose proof (digest_value native d Hd) as V.
  destruct (bufreverse native d) as [hv|e]; cbn [bind] in V |- *; [|reflexivity].
  rewrite V. cbn [bind].
  pose proof (zero_word_small_value d Hd E) as S. rewrite be_to_Z_rev.
  destruct (Z.ltb_spec (le_to_Z d) t1), (Z.ltb_spec (le_to_Z d) t2); try reflexivity; lia.
Qed.

Lemma work_loop_target_cap (h : sha256_obj) (t1 t2 : Z) (nonces : list Z)
    (nonce_var : option Z) :
  2 ^ 224 <= t1 -> 2 ^ 224 <= t2 ->
  work_loop native sha256 h t1 nonces nonce_var
  = work_loop native sha256 h t2 nonces nonce_var.
Proof.
  intros H1 H2. revert nonce_var.
  induction nonces as [|n rest IH]; intros nonce_var; [reflexivity|].
  cbn [work_loop]. rewrite (try_nonce_target_cap h t1 t2 n H1 H2).
  destruct (try_nonce native sha256 h t2 n) as [[nb|]|e]; cbn [bind];
    [reflexivity | apply IH | reflexivity].
Qed.

End SearchOutcome.

(** X7: the target is the byte string of the wire read as a little-endian
    integer, below 256 to the number of its bytes; an empty target raises
    [ValueError]. *)
Theorem parse_target_is_little_endian (s : string) (tb : list byte) :
  fromhex s = Ok tb ->
  parse_target (PStr s)
  = match tb with
    | [] => Raise ValueError
    | _ => Ok (le_to_Z tb)
    end
  /\ 0 <= le_to_Z tb < 2 ^ (8 * Z.of_nat (length tb)).
Proof.
  intros H. split; [|split; [apply le_to_Z_nonneg | apply le_to_Z_bound]].
  unfold parse_target, bytes_fromhex. rewrite H. cbn [bind].
  destruct tb as [|b tl]; [reflexivity|].
  rewrite int_16_hex, be_to_Z_rev; [reflexivity|].
  intros E. apply (f_equal (@length byte)) in E.
  rewrite length_rev in E. discriminate E.
Qed.

Lemma parse_target_is_little_endian_witness :
  fromhex "0102" = Ok [x01; x02]
  /\ parse_target (PStr "0102") = Ok (le_to_Z [x01; x02])
  /\ 0 <= le_to_Z [x01; x02] < 2 ^ (8 * Z.of_nat (length [x01; x02])).
Proof.
  split; [reflexivity|].
  apply (parse_target_is_little_endian "0102" [x01; x02]). reflexivity.
Defined.

(** X8: the header prefix is the first 76 bytes of the data with every
    word byte-swapped; data that does not end on a word boundary raises
    [struct.error] before anything is hashed. *)
Theorem block_header_cases (native : byteorder) (s : string) (sd : list byte) :
  fromhex s = Ok sd ->
  match block_header native (PStr s) with
  | Ok blk_hdr =>
      (length sd mod 4 = 0)%nat
      /\ length blk_hdr = Nat.min 76 (length sd)
      /\ blk_hdr = firstn 76 (concat (map (@rev byte) (chunks4 sd)))
  | Raise e => e = StructError /\ ((length sd mod 4 =? 0)%nat = false)
  end.
Proof.
  intros H. unfold block_header, bytes_fromhex. rewrite H. cbn [bind].
  rewrite bufreverse_cases.
  destruct (Nat.eqb_spec (length sd mod 4) 0) as [A|A]; cbn [bind].
  - split; [exact A|]. split; [|reflexivity].
    now rewrite length_firstn, swab_length.
  - split; reflexivity.
Qed.

Lemma block_header_cases_witness :
  fromhex "0102030405060708" = Ok eight_bytes
  /\ match block_header LittleEndian (PStr "0102030405060708") with
     | Ok blk_hdr =>
         (length eight_bytes mod 4 = 0)%nat
         /\ length blk_hdr = Nat.min 76 (length eight_bytes)
         /\ blk_hdr = firstn 76 (concat (map (@rev byte) (chunks4 eight_bytes)))
     | Raise e => e = StructError /\ ((length eight_bytes mod 4 =? 0)%nat = false)
     end.
Proof.
  split; [reflexivity|].
  apply (block_header_cases LittleEndian "0102030405060708" eight_bytes). reflexivity.
Defined.

(** X9: a nonce that [work] returns qualifies and is the first that
    does: its digest ends in four zero bytes, its value is below the
    target, no smaller nonce has both, [attempts] is the nonce plus one
    and the bytes returned are the nonce packed as ['<I']. *)
Theorem work_found_is_first_qualifying
    (native : byteorder) (sha256 : list byte -> list byte)
    (bound : Z) (datastr targetstr : pyval)
    (blk_hdr : list byte) (target attempts : Z) (nonce_bin : list byte) :
  (forall msg, length (sha256 msg) = 32%nat) ->
  block_header native datastr = Ok blk_hdr ->
  parse_target targetstr = Ok target ->
  work native sha256 bound datastr targetstr = Ok (attempts, Some nonce_bin) ->
  1 <= attempts <= bound
  /\ attempts - 1 <= 0xffffffff
  /\ nonce_bin = le_of_Z4 (attempts - 1)
  /\ ends_in_zero_word (pow_digest sha256 blk_hdr (attempts - 1)) = true
  /\ pow_value sha256 blk_hdr (attempts - 1) < target
  /\ forall m, 0 <= m < attempts - 1 -> qualifies sha256 blk_hdr target m = false.
Proof.
  intros Hlen Hhdr Htgt Hwork.
  destruct (work_outcome native sha256 Hlen bound datastr targetstr blk_hdr target
              Hhdr Htgt)
    as [(n & Hn & Hn32 & Hq & Hfirst & E)|(Hnone & E)];
    rewrite E in Hwork.
  - injection Hwork as <- <-.
    replace (n + 1 - 1) with n by lia.
    unfold qualifies in Hq. apply andb_prop in Hq as [Hz Hv].
    apply Z.ltb_lt in Hv. repeat split; try lia; assumption.
  - destruct (bound <=? 0); [discriminate Hwork|].
    destruct (bound <=? 0x100000000); discriminate Hwork.
Qed.

Lemma work_found_is_first_qualifying_witness :
  1 <= 3 <= 5
  /\ 3 - 1 <= 0xffffffff
  /\ nonce_bin_2 = le_of_Z4 (3 - 1)
  /\ ends_in_zero_word
       (pow_digest toy_sha256
          (match block_header LittleEndian (PStr regtest_data) with
           | Ok h => h | Raise _ => [] end) (3 - 1)) = true
  /\ pow_value toy_sha256
       (match block_header LittleEndian (PStr regtest_data) with
        | Ok h => h | Raise _ => [] end) (3 - 1)
     < 0x0000000002020202020202020202020202020202020202020202020202020202
  /\ forall m, 0 <= m < 3 - 1 ->
       qualifies toy_sha256
         (match block_header LittleEndian (PStr regtest_data) with
          | Ok h => h | Raise _ => [] end)
         0x0000000002020202020202020202020202020202020202020202020202020202 m = false.
Proof.
  apply (work_found_is_first_qualifying LittleEndian toy_sha256 5
           (PStr regtest_data) (PStr toy_target)).
  - exact toy_sha256_length.
  - vm_compute. reflexivity.
  - vm_compute. reflexivity.
  - vm_compute. reflexivity.
Defined.

(** X10: when [work] returns without a nonce it has tried every nonce
    below the bound: [attempts] is the bound, the bound is at least 1 and
    at most 2^32, and no nonce below it qualifies. *)
Theorem work_exhausted_is_complete
    (native : byteorder) (sha256 : list byte -> list byte)
    (bound : Z) (datastr targetstr : pyval)
    (blk_hdr : list byte) (target attempts : Z) :
  (forall msg, length (sha256 msg) = 32%nat) ->
  block_header native datastr = Ok blk_hdr ->
  parse_target targetstr = Ok target ->
  work native sha256 bound datastr targetstr = Ok (attempts, None) ->
  attempts = bound
  /\ 1 <= bound <= 0x100000000
  /\ forall m, 0 <= m < bound -> qualifies sha256 blk_hdr target m = false.
Proof.
  intros Hlen Hhdr Htgt Hwork.
  destruct (work_outcome native sha256 Hlen bound datastr targetstr blk_hdr target
              Hhdr Htgt)
    as [(n & Hn & Hn32 & Hq & Hfirst & E)|(Hnone & E)];
    rewrite E in Hwork; [discriminate Hwork|].
  destruct (Z.leb_spec bound 0); [discriminate Hwork|].
  destruct (Z.leb_spec bound 0x100000000); [|discriminate Hwork].
  injection Hwork as <-. repeat split; try lia.
  intros m Hm. apply Hnone. lia.
Qed.

Lemma work_exhausted_is_complete_witness :
  3 = 3
  /\ 1 <= 3 <= 0x100000000
  /\ forall m, 0 <= m < 3 ->
       qualifies SHA256.hash
         (match block_header LittleEndian (PStr regtest_data) with
          | Ok h => h | Raise _ => [] end)
         (pow_value SHA256.hash
            (match block_header LittleEndian (PStr regtest_data) with
             | Ok h => h | Raise _ => [] end) 1 + 1) m = false.
Proof.
  apply (work_exhausted_is_complete LittleEndian SHA256.hash 3
           (PStr regtest_data) (PStr regtest_target)).
  - exact sha256_length.
  - vm_compute. reflexivity.
  - vm_compute. reflexivity.
  - vm_compute. reflexivity.
Defined.

(** X11: a bound above 2^32 with no qualifying 32-bit nonce ends in
    [struct.error]: line 120 cannot pack the nonce 2^32. *)
Theorem work_bound_above_32_bits_raises
    (native : byteorder) (sha256 : list byte -> list byte)
    (bound : Z) (datastr targetstr : pyval) (blk_hdr : list byte) (target : Z) :
  (forall msg, length (sha256 msg) = 32%nat) ->
  block_header native datastr = Ok blk_hdr ->
  parse_target targetstr = Ok target ->
  0x100000000 < bound ->
  (forall m, 0 <= m <= 0xffffffff -> qualifies sha256 blk_hdr target m = false) ->
  work native sha256 bound datastr targetstr = Raise StructError.
Proof.
  intros Hlen Hhdr Htgt Hb Hnone.
  destruct (work_outcome native sha256 Hlen bound datastr targetstr blk_hdr target
              Hhdr Htgt)
    as [(n & Hn & Hn32 & Hq & Hfirst & E)|(_ & E)].
  - rewrite Hnone in Hq by lia. discriminate Hq.
  - rewrite E.
    destruct (Z.leb_spec bound 0); [lia|].
    destruct (Z.leb_spec bound 0x100000000); [lia|reflexivity].
Qed.

Lemma zero_target_never_qualifies (sha256 : list byte -> list byte)
    (blk_hdr : list byte) (m : Z) :
  qualifies sha256 blk_hdr 0 m = false.
Proof.
  unfold qualifies. pose proof (pow_value_nonneg sha256 blk_hdr m).
  destruct (Z.ltb_spec (pow_value sha256 blk_hdr m) 0); [lia|].
  apply andb_false_r.
Qed.

Lemma work_bound_above_32_bits_raises_witness :
  work LittleEndian SHA256.hash 0x100000001 (PStr regtest_data) (PStr zero_target)
  = Raise StructError.
Proof.
  eapply (work_bound_above_32_bits_raises LittleEndian SHA256.hash 0x100000001
            (PStr regtest_data) (PStr zero_target)).
  - exact sha256_length.
  - vm_compute. reflexivity.
  - vm_compute. reflexivity.
  - lia.
  - intros m _. apply zero_target_never_qualifies.
Defined.



(** X13: every target of 2^224 or more gives the same search: line 129
    keeps only digests with a value below 2^224, so the comparison of line
    138 cannot tell such targets apart. *)
Theorem targets_from_2_224_are_alike
    (native : byteorder) (sha256 : list byte -> list byte)
    (bound : Z) (datastr targetstr1 targetstr2 : pyval) (target1 target2 : Z) :
  (forall msg, length (sha256 msg) = 32%nat) ->
  parse_target targetstr1 = Ok target1 ->
  parse_target targetstr2 = Ok target2 ->
  2 ^ 224 <= target1 ->
  2 ^ 224 <= target2 ->
  work native sha256 bound datastr targetstr1
  = work native sha256 bound datastr targetstr2.
Proof.
  intros Hlen H1 H2 L1 L2. unfold work.
  destruct (block_header native datastr) as [blk_hdr|e]; [|reflexivity].
  cbn [bind]. rewrite H1, H2. cbn [bind].
  now apply work_loop_target_cap.
Qed.

Lemma targets_from_2_224_are_alike_witness :
  work LittleEndian SHA256.hash 2 (PStr regtest_data) (PStr regtest_target)
  = work LittleEndian SHA256.hash 2 (PStr regtest_data) (PStr all_ones_target).
Proof.
  eapply (targets_from_2_224_are_alike LittleEndian SHA256.hash 2
            (PStr regtest_data) (PStr regtest_target) (PStr all_ones_target)).
  - exact sha256_length.
  - vm_compute. reflexivity.
  - vm_compute. reflexivity.
  - vm_compute. discriminate.
  - vm_compute. discriminate.
Defined.

(** * More on the submission *)

Lemma hex_app (a b : list byte) : hex (a ++ b) = (hex a ++ hex b)%string.
Proof.
  induction a as [|x a IH]; [reflexivity|].
  cbn [app hex String.append]. now rewrite IH.
Qed.

Lemma substring_hex_prefix (k : nat) (bs : list byte) :
  substring 0 (2 * k) (hex bs) = hex (firstn k bs).
Proof.
  revert bs. induction k as [|k IH]; intros bs.
  - cbn [Nat.mul firstn hex]. destruct (hex bs); reflexivity.
  - replace (2 * S k)%nat with (S (S (2 * k))) by lia.
    destruct bs as [|b tl]; [reflexivity|].
    cbn [hex firstn substring]. now rewrite IH.
Qed.

Lemma substring_hex_skip (i m : nat) (bs : list byte) :
  substring (2 * i) m (hex bs) = substring 0 m (hex (skipn i bs)).
Proof.
  revert bs. induction i as [|i IH]; intros bs; [reflexivity|].
  replace (2 * S i)%nat with (S (S (2 * i))) by lia.
  destruct bs as [|b tl].
  - cbn [hex skipn substring]. destruct m; reflexivity.
  - cbn [hex skipn substring]. apply IH.
Qed.

Lemma str_slice_hex (i j : nat) (bs : list byte) :
  str_slice (2 * i) (2 * j) (hex bs) = hex (firstn (j - i) (skipn i bs)).
Proof.
  unfold str_slice. replace (2 * j - 2 * i)%nat with (2 * (j - i))%nat by lia.
  now rewrite substring_hex_skip, substring_hex_prefix.
Qed.

Lemma aligned_multiple (n : nat) : (n mod 4 = 0)%nat -> exists k, n = (4 * k)%nat.
Proof. intros H. exists (n / 4)%nat. now apply Nat.Div0.div_exact. Qed.

Lemma multiple_aligned (k : nat) : ((4 * k) mod 4 = 0)%nat.
Proof. rewrite Nat.mul_comm. apply Nat.Div0.mod_mul. Qed.

Section SpliceRoundTrip.

Variable native : byteorder.

Lemma bind_Ok {A B : Type} (a : A) (k : A -> result B) : bind (Ok a) k = k a.
Proof. reflexivity. Qed.

Lemma firstn_swab (k : nat) (sd : list byte) :
  (length sd mod 4 = 0)%nat ->
  firstn (4 * k) (concat (map (@rev byte) (chunks4 sd)))
  = concat (map (@rev byte) (chunks4 (firstn (4 * k) sd))).
Proof.
  revert k. induction sd as [| a | a b | a b c | a b c d rest IH] using list_ind4;
    intros k H; try discriminate H.
  - now rewrite !firstn_nil.
  - rewrite length_mod4_step in H. destruct k as [|k]; [reflexivity|].
    replace (4 * S k)%nat with (S (S (S (S (4 * k))))) by lia.
    rewrite swab_step. cbn [firstn]. rewrite swab_step. now rewrite IH.
Qed.

Lemma block_header_hex (sd : list byte) :
  (length sd mod 4 = 0)%nat ->
  block_header native (PStr (hex sd))
  = Ok (firstn 76 (concat (map (@rev byte) (chunks4 sd)))).
Proof.
  intros H. unfold block_header, bytes_fromhex.
  rewrite fromhex_hex_bytes, bind_Ok, bufreverse_aligned by assumption.
  reflexivity.
Qed.

(** X14: the solution that is submitted, read back the way [work] reads
    its data, is the header prefix that was searched followed by the nonce
    that was found; the rest of the text is the rest of the data. *)
Theorem solution_decodes_to_header_and_nonce
    (sd nonce_bin blk_hdr : list byte) :
  (length sd mod 4 = 0)%nat ->
  (80 <= length sd)%nat ->
  length nonce_bin = 4%nat ->
  block_header native (PStr (hex sd)) = Ok blk_hdr ->
  solution_of native (hex sd) nonce_bin
  = Ok (hex (firstn 76 sd ++ rev nonce_bin ++ firstn 48 (skipn 80 sd)))
  /\ (static_data <- fromhex (hex (firstn 76 sd ++ rev nonce_bin
                                     ++ firstn 48 (skipn 80 sd))) ;;
      static_data <- bufreverse native static_data ;;
      Ok (firstn 80 static_data))
     = Ok (blk_hdr ++ nonce_bin).
Proof.
  intros Hal Hlen Hnb Hhdr.
  set (A := firstn 76 sd).
  set (T := firstn 48 (skipn 80 sd)).
  assert (LA : length A = 76%nat) by (unfold A; rewrite length_firstn; lia).
  assert (AA : (length A mod 4 = 0)%nat) by (now rewrite LA).
  assert (AT : (length T mod 4 = 0)%nat).
  { unfold T. rewrite length_firstn, length_skipn.
    destruct (aligned_multiple _ Hal) as [k ->].
    destruct (Nat.le_ge_cases 48 (4 * k - 80)) as [L|G].
    - now rewrite Nat.min_l by assumption.
    - rewrite Nat.min_r by assumption.
      replace (4 * k - 80)%nat with (4 * (k - 20))%nat by lia.
      apply multiple_aligned. }
  (* the header prefix is the swapped first 76 bytes *)
  assert (Hblk : blk_hdr = concat (map (@rev byte) (chunks4 A))).
  { assert (E : Ok blk_hdr = Ok (concat (map (@rev byte) (chunks4 A))));
      [|now injection E].
    rewrite <- Hhdr, (block_header_hex sd Hal). f_equal.
    unfold A. change 76%nat with (4 * 19)%nat. now apply firstn_swab. }
  split.
  - unfold solution_of. rewrite bufreverse_nonce, bind_Ok by assumption.
    change (str_slice 0 152 (hex sd)) with (str_slice (2 * 0) (2 * 76) (hex sd)).
    change (str_slice 160 256 (hex sd)) with (str_slice (2 * 80) (2 * 128) (hex sd)).
    rewrite !str_slice_hex.
    change (firstn (76 - 0) (skipn 0 sd)) with A.
    change (firstn (128 - 80) (skipn 80 sd)) with T.
    now rewrite !hex_app.
  - rewrite fromhex_hex_bytes. cbn [bind].
    destruct nonce_bin as [|a [|b [|c [|d [|]]]]]; try discriminate Hnb.
    assert (Hall : (length (A ++ rev [a; b; c; d] ++ T) mod 4 = 0)%nat).
    { rewrite !length_app, LA. cbn [rev app length].
      destruct (aligned_multiple _ AT) as [k ->].
      replace (76 + (4 + 4 * k))%nat with (4 * (20 + k))%nat by lia.
      apply multiple_aligned. }
    rewrite bufreverse_aligned by assumption. cbn [bind].
    rewrite swab_app by assumption.
    cbn [rev app]. rewrite (swab_step d c b a T).
    rewrite Hblk. f_equal.
    set (S := concat (map (@rev byte) (chunks4 A))).
    assert (LS : length S = 76%nat) by (unfold S; now rewrite swab_length).
    change (S ++ a :: b :: c :: d :: concat (map (@rev byte) (chunks4 T)))
      with (S ++ [a; b; c; d] ++ concat (map (@rev byte) (chunks4 T))).
    rewrite app_assoc.
    replace 80%nat with (length (S ++ [a; b; c; d]) + 0)%nat
      by (rewrite length_app, LS; reflexivity).
    rewrite firstn_app_2. cbn [firstn]. now rewrite app_nil_r.
Qed.

End SpliceRoundTrip.

Lemma solution_decodes_to_header_and_nonce_witness :
  exists blk_hdr,
    block_header LittleEndian (PStr (hex regtest_bytes)) = Ok blk_hdr
    /\ solution_of LittleEndian (hex regtest_bytes) nonce_bin_2
       = Ok (hex (firstn 76 regtest_bytes ++ rev nonce_bin_2
                  ++ firstn 48 (skipn 80 regtest_bytes)))
    /\ (static_data <- fromhex (hex (firstn 76 regtest_bytes ++ rev nonce_bin_2
                                       ++ firstn 48 (skipn 80 regtest_bytes))) ;;
        static_data <- bufreverse LittleEndian static_data ;;
        Ok (firstn 80 static_data))
       = Ok (blk_hdr ++ nonce_bin_2).
Proof.
  eexists. split; [vm_compute; reflexivity|].
  apply (solution_decodes_to_header_and_nonce LittleEndian regtest_bytes nonce_bin_2).
  - reflexivity.
  - vm_compute. repeat constructor.
  - reflexivity.
  - vm_compute. reflexivity.
Defined.

(** * More on the work cycle *)

Section CycleShape.

Variable native : byteorder.
Variable sha256 : list byte -> list byte.
Variable scantime : Z.

(** Every way one pass of [iterate] can end. *)
Lemma iterate_cases (io : cycle_io) (st : Miner * list event) :
  let b := max_nonce (fst st) in
  (exists e, iterate native sha256 scantime io st = (Raise e, st))
  \/ iterate native sha256 scantime io st
     = (Ok tt, (fst st, snd st ++ [Sleep ERR_SLEEP]))
  \/ (exists e, iterate native sha256 scantime io st
                = (Raise e, (fst st, snd st ++ [Search b])))
  \/ (exists r nb, iterate native sha256 scantime io st
                   = (r, (mkMiner (id (fst st)) (clamp nb), snd st ++ [Search b])))
  \/ (exists r nb sol, iterate native sha256 scantime io st
                       = (r, (mkMiner (id (fst st)) (clamp nb),
                              snd st ++ [Search b; Submit sol]))).
Proof.
  destruct st as [miner trace]. cbn [fst snd].
  unfold iterate, bindM, lift, get_max_nonce, emit, set_max_nonce, ret.
  cbv beta zeta. cbn [fst snd id].
  destruct (getwork (fetch_reply io)) as [work_v|e]; [|left; eauto].
  destruct (is_None work_v); [right; left; reflexivity|].
  destruct (py_contains "data" work_v) as [has_data|e]; [|left; eauto].
  destruct has_data; cbn [negb]; [|right; left; reflexivity].
  destruct (py_contains "target" work_v) as [has_target|e]; [|left; eauto].
  destruct has_target; cbn [negb]; [|right; left; reflexivity].
  destruct (py_getitem work_v "data") as [data|e]; [|left; eauto].
  destruct (py_getitem work_v "target") as [target|e]; [|left; eauto].
  cbn [fst snd id].
  destruct (work native sha256 (max_nonce miner) data target) as [[attempts nonce_bin]|e];
    [|right; right; left; eauto].
  cbn [fst snd id].
  destruct (raw_bound scantime attempts (float_sub (time_end io) (time_start io)))
    as [new_bound|e]; [|right; right; left; eauto].
  destruct (new_bound >? 0xfffffffa) eqn:G; cbn [fst snd id].
  all: destruct nonce_bin as [nb|];
    [|right; right; right; left; eexists; exists new_bound;
      unfold clamp; rewrite G; reflexivity].
  all: unfold submit_work;
    destruct data as [| | |data| |];
    try (right; right; right; left; unfold lift; eexists; exists new_bound;
         unfold clamp; rewrite G; reflexivity).
  all: unfold bindM, lift, emit, ret; cbn [fst snd];
    destruct (solution_of native data nb) as [sol|e];
    [|right; right; right; left; eexists; exists new_bound;
      unfold clamp; rewrite G; reflexivity].
  all: right; right; right; right; rewrite <- app_assoc; cbn [app];
    destruct (getwork (submit_reply io));
    eexists; exists new_bound, sol; unfold clamp; rewrite G; reflexivity.
Qed.



End CycleShape.

Lemma clamp_min (nb : Z) : clamp nb = Z.min nb NONCE_CEILING.
Proof.
  unfold clamp, NONCE_CEILING. destruct (Z.gtb_spec nb 0xfffffffa); lia.
Qed.

(** X15: what one pass of [iterate] adds to the worker's events is
    nothing, one pause of [ERR_SLEEP] seconds, one search with the current
    bound, or that search followed by one submission: it never pauses
    after a search and never submits without one. *)
Theorem iterate_adds_events
    (native : byteorder) (sha256 : list byte -> list byte) (scantime : Z)
    (io : cycle_io) (st : Miner * list event) :
  exists evs,
    snd (snd (iterate native sha256 scantime io st)) = snd st ++ evs
    /\ (evs = []
        \/ evs = [Sleep ERR_SLEEP]
        \/ evs = [Search (max_nonce (fst st))]
        \/ exists solution, evs = [Search (max_nonce (fst st)); Submit solution]).
Proof.
  destruct (iterate_cases native sha256 scantime io st)
    as [(e & E)|[E|[(e & E)|[(r & nb & E)|(r & nb & sol & E)]]]]; rewrite E; cbn [snd].
  - exists []. split; [now rewrite app_nil_r | auto].
  - eexists. split; [reflexivity | auto].
  - eexists. split; [reflexivity | auto].
  - eexists. split; [reflexivity | auto].
  - eexists. split; [reflexivity | eauto 6].
Qed.

Section WorkerInvariant.

Variable native : byteorder.
Variable sha256 : list byte -> list byte.
Variable scantime : Z.

Lemma iterate_keeps_worker_ok (io : cycle_io) (st : Miner * list event) :
  worker_ok st ->
  worker_ok (snd (iterate native sha256 scantime io st))
  /\ id (fst (snd (iterate native sha256 scantime io st))) = id (fst st).
Proof.
  intros [Hb Ht].
  assert (Hs : search_within_ceiling (Search (max_nonce (fst st)))) by exact Hb.
  destruct (iterate_cases native sha256 scantime io st)
    as [(e & E)|[E|[(e & E)|[(r & nb & E)|(r & nb & sol & E)]]]]; rewrite E;
    unfold worker_ok; cbn [fst snd id max_nonce]; rewrite ?clamp_min;
    (split; [split; [lia|] | reflexivity]);
    try assumption;
    apply Forall_app; (split; [assumption|]); repeat constructor; assumption.
Qed.

Lemma loop_keeps_worker_ok (cycles : list cycle_io) (st : Miner * list event) :
  worker_ok st ->
  worker_ok (snd (loop native sha256 scantime cycles st))
  /\ id (fst (snd (loop native sha256 scantime cycles st))) = id (fst st).
Proof.
  revert st. induction cycles as [|io rest IH]; intros st H; [now split|].
  cbn [loop]. unfold bindM.
  destruct (iterate_keeps_worker_ok io st H) as [H1 H2].
  destruct (iterate native sha256 scantime io st) as [[u|e] st']; cbn [snd] in *.
  - destruct (IH st' H1) as [H3 H4]. split; [exact H3 | congruence].
  - now split.
Qed.

End WorkerInvariant.

(** X16: however many cycles a worker runs and however they end, its
    bound never exceeds 0xFFFFFFFA, every search it starts has a bound
    within that ceiling, and its id is the one it was created with. *)
Theorem worker_stays_within_ceiling
    (native : byteorder) (sha256 : list byte -> list byte) (scantime : Z)
    (thr_id : Z) (cycles : list cycle_io) :
  max_nonce (fst (snd (miner_thread native sha256 scantime thr_id cycles)))
  <= NONCE_CEILING
  /\ Forall search_within_ceiling
       (snd (snd (miner_thread native sha256 scantime thr_id cycles)))
  /\ id (fst (snd (miner_thread native sha256 scantime thr_id cycles))) = thr_id.
Proof.
  unfold miner_thread.
  destruct (loop_keeps_worker_ok native sha256 scantime cycles
              (mkMiner thr_id MAX_NONCE, [])) as [[H1 H2] H3].
  - split; [cbn; unfold MAX_NONCE, NONCE_CEILING; lia | constructor].
  - repeat split; assumption.
Qed.

(** X17: a cycle that has searched and recalibrated leaves the smaller of
    the computed bound and 0xFFFFFFFA in [self.max_nonce], whether or not
    a nonce was found and whatever the submission does. *)
Theorem recalibration_clamps
    (native : byteorder) (sha256 : list byte -> list byte) (scantime : Z)
    (io : cycle_io) (st : Miner * list event)
    (d : list (string * pyval)) (data target : pyval)
    (attempts : Z) (nonce_bin : option (list byte)) (new_bound : Z) :
  getwork (fetch_reply io) = Ok (PDict d) ->
  dict_get "data" d = Some data ->
  dict_get "target" d = Some target ->
  work native sha256 (max_nonce (fst st)) data target = Ok (attempts, nonce_bin) ->
  raw_bound scantime attempts (float_sub (time_end io) (time_start io)) = Ok new_bound ->
  max_nonce (fst (snd (iterate native sha256 scantime io st)))
  = Z.min new_bound NONCE_CEILING.
Proof.
  intros Hfetch Hdata Htarget Hwork Hraw.
  rewrite (iterate_searched native sha256 scantime io st d data target
             attempts nonce_bin Hfetch Hdata Htarget Hwork).
  cbv zeta. rewrite Hraw, <- clamp_min.
  destruct nonce_bin as [nb|]; [|reflexivity].
  now rewrite submit_work_keeps_miner.
Qed.

Lemma recalibration_clamps_witness :
  raw_bound 30 3 (float_sub (time_end clock_fast) (time_start clock_fast))
  = Ok 98956046499840
  /\ max_nonce (fst (snd (iterate LittleEndian SHA256.hash 30 clock_fast worker3)))
     = Z.min 98956046499840 NONCE_CEILING.
Proof.
  split; [vm_compute; reflexivity|].
  eapply (recalibration_clamps LittleEndian SHA256.hash 30 clock_fast worker3
            _ (PStr regtest_data) (PStr zero_target) 3 None).
  - apply getwork_reply_of.
  - reflexivity.
  - reflexivity.
  - vm_compute. reflexivity.
  - vm_compute. reflexivity.
Defined.

(** X18: with attempts * scantime not negative and a positive elapsed
    time, the bound a recalibrated cycle leaves is never negative. *)
Theorem positive_elapsed_gives_nonnegative_bound
    (native : byteorder) (sha256 : list byte -> list byte) (scantime : Z)
    (io : cycle_io) (st : Miner * list event)
    (d : list (string * pyval)) (data target : pyval)
    (attempts : Z) (nonce_bin : option (list byte))
    (m : positive) (e new_bound : Z) :
  getwork (fetch_reply io) = Ok (PDict d) ->
  dict_get "data" d = Some data ->
  dict_get "target" d = Some target ->
  work native sha256 (max_nonce (fst st)) data target = Ok (attempts, nonce_bin) ->
  0 <= attempts * scantime ->
  float_sub (time_end io) (time_start io) = S754_finite false m e ->
  raw_bound scantime attempts (S754_finite false m e) = Ok new_bound ->
  0 <= max_nonce (fst (snd (iterate native sha256 scantime io st))) <= NONCE_CEILING.
Proof.
  intros Hfetch Hdata Htarget Hwork Hn Hdiff Hraw.
  rewrite (iterate_searched native sha256 scantime io st d data target
             attempts nonce_bin Hfetch Hdata Htarget Hwork).
  cbv zeta. rewrite Hdiff, Hraw.
  assert (H0 : 0 <= new_bound).
  { unfold raw_bound, truediv_int_float in Hraw.
    destruct (float_of_int (attempts * scantime)) as [x|err] eqn:Ex;
      [|discriminate Hraw].
    apply (raw_bound_nonneg scantime attempts x m e new_bound Hn Ex).
    unfold raw_bound, truediv_int_float. now rewrite Ex. }
  assert (C : 0 <= clamp new_bound <= NONCE_CEILING)
    by (rewrite clamp_min; unfold NONCE_CEILING; lia).
  destruct nonce_bin as [nb|]; [|exact C].
  now rewrite submit_work_keeps_miner.
Qed.

Lemma positive_elapsed_gives_nonnegative_bound_witness :
  0 <= max_nonce (fst (snd (iterate LittleEndian SHA256.hash 30 clock_slow worker3)))
  <= NONCE_CEILING.
Proof.
  eapply (positive_elapsed_gives_nonnegative_bound LittleEndian SHA256.hash 30
            clock_slow worker3 _ (PStr regtest_data) (PStr zero_target) 3 None).
  - apply getwork_reply_of.
  - reflexivity.
  - reflexivity.
  - vm_compute. reflexivity.
  - lia.
  - vm_compute. reflexivity.
  - vm_compute. reflexivity.
Defined.




(** X21: a reply that carries a JSON-RPC error object without ['data'] or
    without ['target'] is taken for work with missing fields: the cycle
    pauses for [ERR_SLEEP] seconds, does not search and keeps its bound. *)
Theorem error_object_backs_off
    (native : byteorder) (sha256 : list byte -> list byte) (scantime : Z)
    (io : cycle_io) (st : Miner * list event)
    (d err : list (string * pyval)) :
  fetch_reply io = Body (Ok (PDict d)) ->
  dict_get "error" d = Some (PDict err) ->
  dict_get "data" err = None \/ dict_get "target" err = None ->
  iterate native sha256 scantime io st
  = (Ok tt, (fst st, snd st ++ [Sleep ERR_SLEEP])).
Proof.
  intros Hreply Herr Hmiss.
  apply (iterate_backs_off native sha256 scantime io st (PDict err)).
  - rewrite Hreply. unfold getwork, rpc. cbn [bind is_None py_contains py_getitem].
    rewrite Herr. reflexivity.
  - right. eauto.
Qed.

Lemma error_object_backs_off_witness :
  iterate LittleEndian SHA256.hash 30
    (mkCycle (Body (Ok (PDict rpc_error_reply))) f1 f2 NoResponse) worker3
  = (Ok tt, (fst worker3, snd worker3 ++ [Sleep ERR_SLEEP])).
Proof.
  eapply (error_object_backs_off LittleEndian SHA256.hash 30 _ worker3 rpc_error_reply).
  - reflexivity.
  - reflexivity.
  - left. reflexivity.
Defined.

(** X22: with a scan time of zero every cycle that has searched leaves
    the bound 0, whatever the number of attempts, when the elapsed time is
    finite and not zero. *)
Theorem zero_scantime_gives_zero_bound
    (native : byteorder) (sha256 : list byte -> list byte)
    (io : cycle_io) (st : Miner * list event)
    (d : list (string * pyval)) (data target : pyval)
    (attempts : Z) (nonce_bin : option (list byte))
    (s : bool) (m : positive) (e : Z) :
  getwork (fetch_reply io) = Ok (PDict d) ->
  dict_get "data" d = Some data ->
  dict_get "target" d = Some target ->
  work native sha256 (max_nonce (fst st)) data target = Ok (attempts, nonce_bin) ->
  float_sub (time_end io) (time_start io) = S754_finite s m e ->
  max_nonce (fst (snd (iterate native sha256 0 io st))) = 0.
Proof.
  intros Hfetch Hdata Htarget Hwork Hdiff.
  rewrite (iterate_searched native sha256 0 io st d data target
             attempts nonce_bin Hfetch Hdata Htarget Hwork).
  cbv zeta. rewrite Hdiff.
  assert (R : raw_bound 0 attempts (S754_finite s m e) = Ok 0).
  { unfold raw_bound, truediv_int_float. rewrite Z.mul_0_r. reflexivity. }
  rewrite R. destruct nonce_bin as [nb|]; [|reflexivity].
  now rewrite submit_work_keeps_miner.
Qed.

Lemma zero_scantime_gives_zero_bound_witness :
  max_nonce (fst (snd (iterate LittleEndian SHA256.hash 0 clock_slow worker3))) = 0.
Proof.
  eapply (zero_scantime_gives_zero_bound LittleEndian SHA256.hash
            clock_slow worker3 _ (PStr regtest_data) (PStr zero_target) 3 None).
  - apply getwork_reply_of.
  - reflexivity.
  - reflexivity.
  - vm_compute. reflexivity.
  - vm_compute. reflexivity.
Defined.

(** X23: on a reply that is a JSON object [rpc] never raises: an error
    member that is not null is returned in place of the result, otherwise
    the result member, and [None] when there is none. *)
Theorem rpc_object_reply (d : list (string * pyval)) :
  rpc (Body (Ok (PDict d)))
  = Ok (let result := match dict_get "result" d with
                      | Some r => r
                      | None => PNone
                      end in
        match dict_get "error" d with
        | Some err => if is_None err then result else err
        | None => result
        end).
Proof.
  unfold rpc. cbn [bind is_None py_contains py_getitem]. cbv zeta.
  destruct (dict_get "error" d) as [err|]; cbn [bind andb negb].
  - destruct (is_None err); cbn [negb];
      [|reflexivity].
    destruct (dict_get "result" d); reflexivity.
  - destruct (dict_get "result" d); reflexivity.
Qed.


